(** * CreditCardParser: the extraction pipeline of [parser.py]

    A shallow embedding of [ChaseParser] (src/parser.py) and the proofs of
    the properties its specification states.

    Modelling conventions.
    - A Python [str] is a list of characters.  Characters are the code
      points U+0000..U+00FF (Rocq's [ascii]); on that range [\d], [\s],
      [str.strip], [str.lower] and [re.IGNORECASE] are exactly the
      functions below.
    - A Python [float] obtained from [float(s)] is the rational number the
      decimal literal [s] denotes, in lowest terms; rounding to the nearest
      double is not modelled, and [as_double] tells when the double is
      infinity.
    - [re.search] is a backtracking matcher over the fragment of regular
      expressions the parser uses (character classes, bounded and unbounded
      repetition, greedy or lazy, concatenation and capture groups).
    - pdfplumber is a read-only store of documents; opening a document and
      leaving the [with] block are explicit steps of a state and exception
      monad. *)

From Stdlib Require Import Ascii String QArith Qabs Lia.
From stdpp Require Import base list.

Open Scope string_scope.
Open Scope list_scope.
Open Scope nat_scope.

(** ** Strings *)

Definition pystr := list ascii.

Definition py (s : string) : pystr := list_ascii_of_string s.
Coercion py : string >-> pystr.

Definition code (c : ascii) : nat := nat_of_ascii c.

Definition char_eqb (a b : ascii) : bool := Ascii.eqb a b.

#[global] Instance ascii_eq_dec : EqDecision ascii := Ascii.ascii_dec.

(** [\d], and the digits [float] reads: the decimal digits of the range. *)
Definition is_digit (c : ascii) : bool :=
  (48 <=? code c) && (code c <=? 57).

(** [str.isspace] on one character, which is also [\s]. *)
Definition is_space (c : ascii) : bool :=
  let n := code c in
  ((9 <=? n) && (n <=? 13)) || ((28 <=? n) && (n <=? 32))
  || (n =? 133) || (n =? 160).

(** [str.lower] on one character. *)
Definition lower_char (c : ascii) : ascii :=
  let n := code c in
  if ((65 <=? n) && (n <=? 90))
     || ((192 <=? n) && (n <=? 222) && negb (n =? 215))
  then ascii_of_nat (n + 32) else c.

Definition lower (s : pystr) : pystr := map lower_char s.

Fixpoint lstrip (s : pystr) : pystr :=
  match s with
  | c :: s' => if is_space c then lstrip s' else s
  | [] => []
  end.

Definition rstrip (s : pystr) : pystr := reverse (lstrip (reverse s)).

(** ["\n"] *)
Definition NL : ascii := "010"%char.

(** [s.strip()] *)
Definition strip (s : pystr) : pystr := rstrip (lstrip s).

(** [s.replace(c, '')] for a one-character [c]. *)
Definition remove_char (c : ascii) (s : pystr) : pystr :=
  List.filter (fun a => negb (char_eqb a c)) s.

(** [x in [...]] on strings. *)
Definition str_in (s : pystr) (l : list pystr) : bool :=
  bool_decide (s ∈ l).

(** ** Regular expressions *)

Inductive catom :=
| ALit (c : ascii)   (* the character itself *)
| ADigit             (* \d *)
| ASpace.            (* \s *)

Inductive cclass :=
| One (a : catom)              (* a character or an escape *)
| OneOf (l : list catom)       (* [...]  *)
| NoneOf (l : list catom).     (* [^...] *)

Inductive regex :=
| Eps
| Rep (greedy : bool) (c : cclass) (lo : nat) (hi : option nat)
| Cat (r1 r2 : regex)
| Group (r : regex).

Definition in_atom (icase : bool) (a : catom) (x : ascii) : bool :=
  match a with
  | ALit c => if icase then char_eqb (lower_char x) (lower_char c)
              else char_eqb x c
  | ADigit => is_digit x
  | ASpace => is_space x
  end.

Definition in_class (icase : bool) (c : cclass) (x : ascii) : bool :=
  match c with
  | One a => in_atom icase a x
  | OneOf l => existsb (fun a => in_atom icase a x) l
  | NoneOf l => negb (existsb (fun a => in_atom icase a x) l)
  end.

(** One character, [c{n}], [c?], [c*], [c+], [c+?]. *)
Definition Chr (c : ascii) : regex := Rep true (One (ALit c)) 1 (Some 1).
Definition Times (n : nat) (c : cclass) : regex := Rep true c n (Some n).
Definition Between (lo hi : nat) (c : cclass) : regex := Rep true c lo (Some hi).
Definition Opt (c : cclass) : regex := Rep true c 0 (Some 1).
Definition Star (c : cclass) : regex := Rep true c 0 None.
Definition Plus (c : cclass) : regex := Rep true c 1 None.
Definition PlusLazy (c : cclass) : regex := Rep false c 1 None.

(** A literal run of characters. *)
Definition Lit (s : pystr) : regex := foldr (fun c r => Cat (Chr c) r) Eps s.

Fixpoint Seq (rs : list regex) : regex :=
  match rs with
  | [] => Eps
  | [r] => r
  | r :: rs' => Cat r (Seq rs')
  end.

Definition room (hi : option nat) : bool :=
  match hi with Some 0 => false | _ => true end.

(** The backtracking matcher, in continuation-passing style: [k] is what
    remains to be matched after this node, applied to the rest of the
    subject; [None] makes the matcher try its next alternative. *)
Section Matcher.
Context {A : Type}.
Variable icase : bool.

Fixpoint rep_match (greedy : bool) (c : cclass) (lo : nat) (hi : option nat)
    (s : pystr) (k : pystr -> option A) {struct s} : option A :=
  let stop := match lo with 0 => k s | S _ => None end in
  match s with
  | x :: s' =>
      if room hi && in_class icase c x then
        let more := rep_match greedy c (pred lo) (pred <$> hi) s' k in
        match lo with
        | S _ => more
        | 0 =>
            if greedy
            then match more with Some r => Some r | None => k s end
            else match k s with Some r => Some r | None => more end
        end
      else stop
  | [] => stop
  end.

(** Captures are collected in the order the groups close, which for
    groups that are not nested is their number. *)
Fixpoint rmatch (r : regex) (s : pystr) (caps : list pystr)
    (k : pystr -> list pystr -> option A) : option A :=
  match r with
  | Eps => k s caps
  | Rep g c lo hi => rep_match g c lo hi s (fun s' => k s' caps)
  | Cat r1 r2 => rmatch r1 s caps (fun s' caps' => rmatch r2 s' caps' k)
  | Group r1 =>
      rmatch r1 s caps
        (fun s' caps' => k s' (caps' ++ [take (length s - length s') s]))
  end.
End Matcher.

(** A match that starts at the first character of [s]: its groups. *)
Definition match_at (icase : bool) (r : regex) (s : pystr)
  : option (list pystr) :=
  rmatch icase r s [] (fun _ caps => Some caps).

(** [re.search(r, s)]: the match at the leftmost position that has one. *)
Fixpoint re_search (icase : bool) (r : regex) (s : pystr)
  : option (list pystr) :=
  match match_at icase r s with
  | Some caps => Some caps
  | None => match s with
            | [] => None
            | _ :: s' => re_search icase r s'
            end
  end.

(** [match.group(n)], for [n >= 1]. *)
Definition group (caps : list pystr) (n : nat) : pystr :=
  default [] (caps !! (pred n)).

(** [re.sub(c, '', s)] for a pattern that is one character class. *)
Definition re_sub_class (c : cclass) (s : pystr) : pystr :=
  List.filter (fun x => negb (in_class false c x)) s.

(** ** [float] *)

Definition digit_val (c : ascii) : Z := Z.of_nat (code c) - 48.

Definition digits_val (ds : pystr) : Z :=
  fold_left (fun acc c => 10 * acc + digit_val c)%Z ds 0%Z.

Fixpoint span_digits (s : pystr) : pystr * pystr :=
  match s with
  | c :: s' =>
      if is_digit c then let '(d, r) := span_digits s' in (c :: d, r)
      else ([], s)
  | [] => ([], [])
  end.

Definition decimal (neg : bool) (ip fp : pystr) : Q :=
  let m := digits_val (ip ++ fp) in
  Qred (Qmake (if neg then (- m)%Z else m)
              (Z.to_pos (10 ^ Z.of_nat (length fp)))).

(** [float(s)] for [s] over the alphabet of digits, ['.'], ['-'] and ['+']:
    an optional sign, then digits with at most one point and at least one
    digit.  [None] is [ValueError].  The other spellings [float] accepts
    (surrounding white space, underscores, exponents, [inf], [nan]) need a
    character outside that alphabet; [parse_amount_alphabet] and
    [balance_capture_alphabet] show the parser never passes one. *)
Definition float_of_string (s : pystr) : option Q :=
  let '(neg, body) :=
    match s with
    | "-"%char :: r => (true, r)
    | "+"%char :: r => (false, r)
    | _ => (false, s)
    end in
  let '(ip, rest) := span_digits body in
  match rest with
  | [] => if ip is [] then None else Some (decimal neg ip [])
  | "."%char :: fp =>
      if forallb is_digit fp && negb (bool_decide (ip = []) && bool_decide (fp = []))
      then Some (decimal neg ip fp) else None
  | _ => None
  end.

(** ** The data model *)

(** A transaction dictionary: the keys ["Date"], ["Description"] and
    ["Amount"]. *)
Record transaction := Transaction {
  Date : pystr;
  Description : pystr;
  Amount : Q
}.

Record StatementData := mkStatementData {
  issuer : pystr;
  card_last_4 : pystr;
  billing_cycle : pystr;
  due_date : pystr;
  total_balance : Q;
  transactions : list transaction
}.

(** What pdfplumber extracts: a cell is a string or [None], a row a list of
    cells, a table a list of rows. *)
Definition cell := option pystr.
Definition row := list cell.
Definition table := list row.

Record page := Page {
  extract_text : option pystr;
  extract_tables : list table
}.

Record pdf := Pdf { pages : list page }.

(** ** Exceptions and the document store *)

Inductive exn :=
| DocumentReadError   (* whatever [pdfplumber.open] raises *)
| IndexError.

Inductive outcome (A : Type) :=
| Ok (a : A)
| Raise (e : exn).
Arguments Ok {A} a.
Arguments Raise {A} e.

Record world := World {
  files : pystr -> option pdf;   (* the documents that open, by path *)
  open_handles : nat             (* documents open at the moment *)
}.

Definition M (A : Type) : Type := world -> outcome A * world.

#[global] Instance M_ret : MRet M := fun A a w => (Ok a, w).

Definition raise {A} (e : exn) : M A := fun w => (Raise e, w).

#[global] Instance M_bind : MBind M := fun A B f m w =>
  match m w with
  | (Ok a, w') => f a w'
  | (Raise e, w') => (Raise e, w')
  end.

(** [with pdfplumber.open(file_path) as pdf: body]: the handle is released
    when the body returns and when it raises. *)
Definition with_open {A} (file_path : pystr) (body : pdf -> M A) : M A :=
  fun w =>
    match files w file_path with
    | None => (Raise DocumentReadError, w)
    | Some doc =>
        let '(r, w') := body doc (World (files w) (S (open_handles w))) in
        (r, World (files w') (pred (open_handles w')))
    end.

(** ** [ChaseParser] *)

(** The loop of [_extract_text_from_pdf], [text] being its accumulator. *)
Fixpoint text_loop (ps : list page) (text : pystr) : pystr :=
  match ps with
  | [] => text
  | p :: ps' =>
      match extract_text p with
      | Some (c :: t) => text_loop ps' (text ++ (c :: t) ++ [NL])
      | _ => text_loop ps' text
      end
  end.

Definition _extract_text_from_pdf (file_path : pystr) : M pystr :=
  with_open file_path (fun doc => mret (text_loop (pages doc) "")).

(** [for pattern in patterns: match = re.search(...); if match: return f(match)]
    and the value after the loop. *)
Fixpoint first_match {A} (patterns : list regex) (text : pystr)
    (f : list pystr -> A) (dflt : A) : A :=
  match patterns with
  | [] => dflt
  | pattern :: rest =>
      match re_search true pattern text with
      | Some m => f m
      | None => first_match rest text f dflt
      end
  end.

Definition digit4 : regex := Group (Times 4 (One ADigit)).

(** [\*{4}(\d{4})], [ending in (\d{4})], [card ending (\d{4})] and
    [account ending (\d{4})]. *)
Definition card_stars : regex := Cat (Times 4 (One (ALit "*"))) digit4.
Definition card_ending_in : regex := Cat (Lit "ending in ") digit4.
Definition card_card_ending : regex := Cat (Lit "card ending ") digit4.
Definition card_account_ending : regex := Cat (Lit "account ending ") digit4.

Definition card_patterns : list regex :=
  [card_stars; card_ending_in; card_card_ending; card_account_ending].

Definition _extract_card_last_4 (text : pystr) : pystr :=
  first_match card_patterns text (fun m => group m 1) [].

Definition colon_or_space : cclass := OneOf [ALit ":"; ASpace].
Definition no_dash_nl : cclass := NoneOf [ALit "-"; ALit NL].

(** [[:\s]+([^-\n]+?)\s*-\s*([^-\n]+)] *)
Definition period_tail : regex :=
  Seq [ Plus colon_or_space; Group (PlusLazy no_dash_nl);
        Star (One ASpace); Chr "-"; Star (One ASpace);
        Group (Plus no_dash_nl) ].

Definition cycle_patterns : list regex :=
  [ Cat (Lit "statement period") period_tail;
    Cat (Lit "billing period") period_tail;
    Cat (Lit "period") period_tail ].

Definition _extract_billing_cycle (text : pystr) : pystr :=
  first_match cycle_patterns text
    (fun m => strip (group m 1) ++ py " - " ++ strip (group m 2)) [].

(** [[:\s]+(\d{1,2}/\d{1,2}/\d{4})] *)
Definition date_tail : regex :=
  Seq [ Plus colon_or_space;
        Group (Seq [ Between 1 2 (One ADigit); Chr "/";
                     Between 1 2 (One ADigit); Chr "/";
                     Times 4 (One ADigit) ]) ].

Definition due_patterns : list regex :=
  [ Cat (Lit "due date") date_tail;
    Cat (Lit "payment due") date_tail;
    Cat (Lit "due") date_tail ].

Definition _extract_due_date (text : pystr) : pystr :=
  first_match due_patterns text (fun m => group m 1) [].

(** The tail of the balance patterns, group 1 being digits and commas, an
    optional point, then digits:  [:\s]+  \$?  ( [\d,]+  \.?  \d* )  *)
Definition money_tail : regex :=
  Seq [ Plus colon_or_space; Opt (One (ALit "$"));
        Group (Seq [ Plus (OneOf [ADigit; ALit ","]);
                     Opt (One (ALit ".")); Star (One ADigit) ]) ].

Definition balance_total : regex := Cat (Lit "total balance") money_tail.
Definition balance_current : regex := Cat (Lit "current balance") money_tail.
Definition balance_plain : regex := Cat (Lit "balance") money_tail.

Definition balance_patterns : list regex :=
  [balance_total; balance_current; balance_plain].

(** The loop of [_extract_total_balance]: a match whose text [float]
    rejects goes on to the next pattern. *)
Fixpoint balance_loop (patterns : list regex) (text : pystr) : Q :=
  match patterns with
  | [] => 0
  | pattern :: rest =>
      match re_search true pattern text with
      | Some m =>
          let amount_str := remove_char "," (group m 1) in
          match float_of_string amount_str with
          | Some v => v
          | None => balance_loop rest text
          end
      | None => balance_loop rest text
      end
  end.

Definition _extract_total_balance (text : pystr) : Q :=
  balance_loop balance_patterns text.

(** [str(c).strip() if c else ""] *)
Definition cell_str (c : cell) : pystr :=
  match c with
  | Some (x :: s) => strip (x :: s)
  | _ => []
  end.

(** [[^\d.,\-]] *)
Definition not_amount_char : cclass :=
  NoneOf [ADigit; ALit "."; ALit ","; ALit "-"].

(** [float(re.sub(r'[^\d.,\-]', '', amount).replace(',', ''))] *)
Definition parse_amount (amount : pystr) : option Q :=
  let amount_clean := re_sub_class not_amount_char amount in
  float_of_string (remove_char "," amount_clean).

(** The lists of the header test. *)
Definition date_headers : list pystr := [py "date"; py "transaction date"; py ""].
Definition description_headers : list pystr :=
  [py "description"; py "merchant"; py ""].
Definition amount_headers : list pystr := [py "amount"; py ""].

(** The body of the loop over rows: [None] is [continue], [Some t] is the
    dictionary appended. *)
Definition row_transaction (r : row) : option transaction :=
  match r with
  | c0 :: c1 :: c2 :: _ =>
      let date := cell_str c0 in
      let description := cell_str c1 in
      let amount := cell_str c2 in
      if str_in (lower date) date_headers
         || str_in (lower description) description_headers
         || str_in (lower amount) amount_headers
      then None
      else if bool_decide (date = []) || bool_decide (description = [])
              || bool_decide (amount = [])
      then None
      else
        match parse_amount amount with
        | Some amount_float => Some (Transaction date description amount_float)
        | None => None
        end
  | _ => None   (* not row or len(row) < 3 *)
  end.

(** [for row in table], [acc] being the list [transactions]. *)
Fixpoint scan_rows (rows : table) (acc : list transaction) : list transaction :=
  match rows with
  | [] => acc
  | r :: rest =>
      match row_transaction r with
      | Some t => scan_rows rest (acc ++ [t])
      | None => scan_rows rest acc
      end
  end.

(** [for table in tables] *)
Fixpoint scan_tables (tables : list table) (acc : list transaction)
  : list transaction :=
  match tables with
  | [] => acc
  | t :: rest =>
      if length t <? 2 then scan_tables rest acc
      else scan_tables rest (scan_rows t acc)
  end.

Definition _extract_transactions (file_path : pystr) : M (list transaction) :=
  with_open file_path (fun doc =>
    match pages doc !! 0 with
    | None => raise IndexError
    | Some first_page =>
        let tables := extract_tables first_page in
        mret (scan_tables tables [])
    end).

Definition parse (file_path : pystr) : M StatementData :=
  text ← _extract_text_from_pdf file_path;
  let card_last_4 := _extract_card_last_4 text in
  let billing_cycle := _extract_billing_cycle text in
  let due_date := _extract_due_date text in
  let total_balance := _extract_total_balance text in
  transactions ← _extract_transactions file_path;
  mret (mkStatementData "Chase" card_last_4 billing_cycle due_date
         total_balance transactions).

(** * Specification vocabulary *)

(** What a pattern matches: the text it consumes and the groups it sets. *)
Inductive matches (icase : bool) : regex -> pystr -> list pystr -> Prop :=
| matches_Eps : matches icase Eps [] []
| matches_Rep g c lo hi w :
    Forall (fun x => in_class icase c x = true) w ->
    lo <= length w ->
    (forall h, hi = Some h -> length w <= h) ->
    matches icase (Rep g c lo hi) w []
| matches_Cat r1 r2 w1 w2 cs1 cs2 :
    matches icase r1 w1 cs1 ->
    matches icase r2 w2 cs2 ->
    matches icase (Cat r1 r2) (w1 ++ w2) (cs1 ++ cs2)
| matches_Group r w cs :
    matches icase r w cs ->
    matches icase (Group r) w (cs ++ [w]).

(** Patterns without groups set none. *)
Fixpoint groupless (r : regex) : bool :=
  match r with
  | Eps | Rep _ _ _ _ => true
  | Cat r1 r2 => groupless r1 && groupless r2
  | Group _ => false
  end.

(** Exactly four decimal digits. *)
Definition four_digits (s : pystr) : Prop :=
  length s = 4 /\ Forall (fun x => is_digit x = true) s.

(** What one balance pattern gives on [text]: the number in group 1 of its
    leftmost match, when it has a match and [float] reads the group. *)
Definition pattern_balance (p : regex) (text : pystr) : option Q :=
  match re_search true p text with
  | Some m => float_of_string (remove_char "," (group m 1))
  | None => None
  end.

(** [needle.lower() in s.lower()], for a lower-case [needle]. *)
Fixpoint starts_with_ci (needle s : pystr) : bool :=
  match needle, s with
  | [], _ => true
  | c :: needle', x :: s' =>
      char_eqb (lower_char x) (lower_char c) && starts_with_ci needle' s'
  | _ :: _, [] => false
  end.

Fixpoint contains_ci (needle s : pystr) : bool :=
  starts_with_ci needle s
  || match s with
     | [] => false
     | _ :: s' => contains_ci needle s'
     end.

(** The characters [float] is given by the parser. *)
Definition float_char (x : ascii) : Prop :=
  is_digit x = true \/ x = "."%char \/ x = "-"%char.

(** The transactions one table contributes. *)
Definition table_transactions (t : table) : list transaction :=
  if length t <? 2 then [] else omap row_transaction t.

(** Cell [i] of a row as the loop reads it, a missing cell reading as the
    empty string. *)
Definition row_cell (r : row) (i : nat) : pystr :=
  cell_str (default None (r !! i)).

(** A row whose date or description cell is a header word or blank. *)
Definition header_row (r : row) : bool :=
  str_in (lower (row_cell r 0)) date_headers
  || str_in (lower (row_cell r 1)) description_headers.

(** The characters the amount keeps: digits, the point, the comma and the
    minus sign. *)
Definition keeps_amount_char (x : ascii) : bool :=
  is_digit x || char_eqb x "." || char_eqb x "," || char_eqb x "-".

(** The normalization as the specification words it: a minus sign is kept
    only in front. *)
Definition normalize_amount_spec (amount : pystr) : pystr :=
  let digit_point_comma x := is_digit x || char_eqb x "." || char_eqb x "," in
  match amount with
  | "-"%char :: rest => "-"%char :: List.filter digit_point_comma rest
  | _ => List.filter digit_point_comma amount
  end.

(** The transaction a row of three cells or more gives when its date,
    description and amount are [date], [description] and [amount]. *)
Definition emits (r : row) (t : transaction) : Prop :=
  exists c0 c1 c2 rest,
    r = c0 :: c1 :: c2 :: rest
    /\ Date t = cell_str c0
    /\ Description t = cell_str c1
    /\ parse_amount (cell_str c2) = Some (Amount t).

(** The page texts the loop keeps: those that are neither [None] nor
    empty. *)
Definition kept_texts (ps : list page) : list pystr :=
  omap (fun p => match extract_text p with
                 | Some (c :: t) => Some (c :: t)
                 | _ => None
                 end) ps.

(** ["\n".join(l)] *)
Fixpoint join_nl (l : list pystr) : pystr :=
  match l with
  | [] => []
  | [s] => s
  | s :: l' => s ++ [NL] ++ join_nl l'
  end.

(** The full text as the specification words it: the kept page texts
    joined with newline separators. *)
Definition full_text_spec (ps : list page) : pystr := join_nl (kept_texts ps).

(** ** Sample documents *)

(** The end-to-end scenario of the specification. *)
Definition sample_doc : pdf :=
  Pdf [ Page (Some (py "Statement Period: 01/01/2024 - 01/31/2024" ++ [NL]
                    ++ py "Due Date: 02/15/2024" ++ [NL]
                    ++ py "Account ****9999" ++ [NL]
                    ++ py "Total Balance: $1,234.56"))
          [ [ [Some (py "Date"); Some (py "Description"); Some (py "Amount")];
              [Some (py "01/05/2024"); Some (py "Coffee Shop"); Some (py "$4.50")];
              [Some (py "01/10/2024"); Some (py "Grocery"); Some (py "$88.20")] ] ] ].

Definition sample_world : world :=
  World (fun p => if bool_decide (p = py "statements/chase_sample.pdf")
                  then Some sample_doc else None) 0.

(** A document that opens and has no pages, and one whose only page has
    text and no tables. *)
Definition small_world : world :=
  World (fun p => if bool_decide (p = py "empty.pdf") then Some (Pdf [])
                  else if bool_decide (p = py "letter.pdf")
                       then Some (Pdf [Page (Some (py "Dear customer")) []])
                  else None) 0.

(** ** Vocabulary of the further properties *)

(** The number [float] reads behind the sign. *)
Definition read_unsigned (neg : bool) (body : pystr) : option Q :=
  let '(ip, rest) := span_digits body in
  match rest with
  | [] => if ip is [] then None else Some (decimal neg ip [])
  | "."%char :: fp =>
      if forallb is_digit fp && negb (bool_decide (ip = []) && bool_decide (fp = []))
      then Some (decimal neg ip fp) else None
  | _ => None
  end.

(** A character of an unsigned amount: a digit, a point or a comma. *)
Definition unsigned_char (x : ascii) : Prop :=
  is_digit x = true \/ x = "."%char \/ x = ","%char.

(** A string that does not begin with white space, and one that neither
    begins nor ends with it. *)
Definition starts_clean (s : pystr) : Prop :=
  match s with
  | x :: _ => is_space x = false
  | [] => True
  end.

Definition trimmed (s : pystr) : Prop :=
  starts_clean s /\ starts_clean (reverse s).

(** One or two digits, a slash, one or two digits, a slash, four digits. *)
Definition date_shape (s : pystr) : Prop :=
  exists d m y,
    s = d ++ py "/" ++ m ++ py "/" ++ y
    /\ Forall (fun x => is_digit x = true) (d ++ m ++ y)
    /\ (1 <= length d <= 2) /\ (1 <= length m <= 2) /\ length y = 4.

(** A span of the billing cycle: trimmed, without hyphen and newline. *)
Definition cycle_span (s : pystr) : Prop :=
  trimmed s /\ ("-"%char ∉ s) /\ (NL ∉ s).

(** Takes a match of a concatenation apart, down to its repetitions. *)
Ltac invert_matches :=
  repeat match goal with
  | H : matches _ (Cat _ _) _ _ |- _ => inversion H; subst; clear H
  | H : matches _ (Group _) _ _ |- _ => inversion H; subst; clear H
  | H : matches _ (Rep _ _ _ _) _ _ |- _ => inversion H; subst; clear H
  end.

(** A document whose only page has no text layer and one table, as a
    scanned statement gives. *)
Definition scanned_doc : pdf :=
  Pdf [ Page None
          [ [ [Some (py "Date"); Some (py "Description"); Some (py "Amount")];
              [Some (py "01/05/2024"); Some (py "Coffee Shop"); Some (py "$4.50")] ] ] ].

Definition scanned_world : world := World (fun _ => Some scanned_doc) 0.

(** The sample statement followed by a second page with the given tables. *)
Definition two_page_world (second_tables : list table) : world :=
  World (fun _ => Some (Pdf (pages sample_doc
                             ++ [Page (Some (py "Page 2")) second_tables]))) 0.

(** ** The caller's display, [app.py] *)

(** [value or "-"] *)
Definition or_dash (value : pystr) : pystr :=
  match value with
  | [] => py "-"
  | _ => value
  end.

(** ["#ef4444" if data.total_balance > 0 else "#10b981"] *)
Definition balance_color (total_balance : Q) : pystr :=
  if negb (Qle_bool total_balance 0) then py "#ef4444" else py "#10b981".

(** The loop body without its amount header test and its blank re-check. *)
Definition row_transaction_core (r : row) : option transaction :=
  match r with
  | c0 :: c1 :: c2 :: _ =>
      if str_in (lower (cell_str c0)) date_headers
         || str_in (lower (cell_str c1)) description_headers
      then None
      else
        match parse_amount (cell_str c2) with
        | Some v => Some (Transaction (cell_str c0) (cell_str c1) v)
        | None => None
        end
  | _ => None
  end.

(** ** Vocabulary of the transactions list *)








(** * Properties *)

(** ** The matcher *)

Section MatcherFacts.
Context {A : Type}.
Variable icase : bool.

Lemma rep_match_sound g c s : forall lo hi (k : pystr -> option A) res,
  rep_match icase g c lo hi s k = Some res ->
  exists w s', s = w ++ s'
    /\ Forall (fun x => in_class icase c x = true) w
    /\ lo <= length w
    /\ (forall h, hi = Some h -> length w <= h)
    /\ k s' = Some res.
Proof.
  induction s as [|x s IH]; intros lo hi k res H; simpl in H.
  - destruct lo; [|discriminate].
    exists [], []. repeat split; auto; simpl; intros; lia.
  - assert (Hstop : lo = 0 -> k (x :: s) = Some res ->
              exists w s', x :: s = w ++ s'
                /\ Forall (fun x => in_class icase c x = true) w
                /\ lo <= length w
                /\ (forall h, hi = Some h -> length w <= h)
                /\ k s' = Some res).
    { intros -> Hk. exists [], (x :: s).
      repeat split; auto; simpl; intros; lia. }
    destruct (room hi && in_class icase c x) eqn:E.
    + apply andb_true_iff in E as [Hroom Hc].
      assert (Hmore : rep_match icase g c (pred lo) (pred <$> hi) s k = Some res ->
                exists w s', x :: s = w ++ s'
                  /\ Forall (fun x => in_class icase c x = true) w
                  /\ lo <= length w
                  /\ (forall h, hi = Some h -> length w <= h)
                  /\ k s' = Some res).
      { intros H'. apply IH in H' as (w & s' & -> & Hw & Hlo & Hhi & Hk).
        exists (x :: w), s'. repeat split; auto; simpl; [lia|].
        intros h ->. destruct h as [|h]; [discriminate|].
        specialize (Hhi h eq_refl). lia. }
      destruct lo as [|lo]; [|auto].
      destruct g.
      * destruct (rep_match icase true c (pred 0) (pred <$> hi) s k) eqn:E2.
        -- apply Hmore. congruence.
        -- auto.
      * destruct (k (x :: s)) eqn:E2; auto.
    + destruct lo; [auto|discriminate].
Qed.

Lemma rmatch_sound r : forall s caps (k : pystr -> list pystr -> option A) res,
  rmatch icase r s caps k = Some res ->
  exists w s' cs, s = w ++ s' /\ matches icase r w cs
    /\ k s' (caps ++ cs) = Some res.
Proof.
  induction r as [|g c lo hi|r1 IH1 r2 IH2|r IH]; intros s caps k res H;
    simpl in H.
  - exists [], s, []. rewrite app_nil_r. repeat split; auto. constructor.
  - apply rep_match_sound in H as (w & s' & -> & Hw & Hlo & Hhi & Hk).
    exists w, s', []. rewrite app_nil_r. repeat split; auto.
    now constructor.
  - apply IH1 in H as (w1 & s1 & cs1 & -> & M1 & H).
    apply IH2 in H as (w2 & s2 & cs2 & -> & M2 & H).
    exists (w1 ++ w2), s2, (cs1 ++ cs2).
    rewrite <- !app_assoc in *. repeat split; auto. now constructor.
  - apply IH in H as (w & s' & cs & -> & M1 & H).
    exists w, s', (cs ++ [w]). repeat split; auto; [now constructor|].
    rewrite length_app, Nat.add_sub, take_app_length in H.
    now rewrite app_assoc.
Qed.

(** A repetition of exactly [length w] characters takes [w]. *)
Lemma rep_match_exact g c w s (k : pystr -> option A) :
  Forall (fun x => in_class icase c x = true) w ->
  rep_match icase g c (length w) (Some (length w)) (w ++ s) k = k s.
Proof.
  induction 1 as [|x w Hx Hw IH]; simpl.
  - now destruct s.
  - now rewrite Hx.
Qed.
End MatcherFacts.

Lemma match_at_sound icase r s caps :
  match_at icase r s = Some caps ->
  exists w s', s = w ++ s' /\ matches icase r w caps.
Proof.
  intros H. apply rmatch_sound in H as (w & s' & cs & -> & Hm & H).
  simpl in H. injection H as <-. eauto.
Qed.

Lemma re_search_sound icase r s caps :
  re_search icase r s = Some caps ->
  exists pre w post, s = pre ++ w ++ post /\ matches icase r w caps.
Proof.
  induction s as [|x s IH]; simpl; intros H.
  - destruct (match_at icase r []) eqn:E; [|discriminate].
    injection H as ->. apply match_at_sound in E as (w & s' & -> & Hm).
    now exists [], w, s'.
  - destruct (match_at icase r (x :: s)) eqn:E.
    + injection H as ->. apply match_at_sound in E as (w & s' & -> & Hm).
      now exists [], w, s'.
    + apply IH in H as (pre & w & post & -> & Hm).
      now exists (x :: pre), w, post.
Qed.

(** Positions before the leftmost match do not matter. *)
Lemma re_search_skip icase r pre rest :
  (forall i, i < length pre -> match_at icase r (drop i (pre ++ rest)) = None) ->
  re_search icase r (pre ++ rest) = re_search icase r rest.
Proof.
  induction pre as [|x pre IH]; intros H; [reflexivity|].
  pose proof (H 0 ltac:(simpl; lia)) as H0. simpl in H0 |- *. rewrite H0.
  apply IH. intros i Hi. apply (H (S i)). simpl; lia.
Qed.

Lemma re_search_here icase r s caps :
  match_at icase r s = Some caps -> re_search icase r s = Some caps.
Proof. intros H. destruct s; simpl; now rewrite H. Qed.

Section ExactMatches.
Context {A : Type}.
Variable icase : bool.

Lemma rep_match_zero g c s (k : pystr -> option A) :
  rep_match icase g c 0 (Some 0) s k = k s.
Proof. now destruct s. Qed.

Lemma rmatch_times n c w s caps (k : pystr -> list pystr -> option A) :
  length w = n ->
  Forall (fun x => in_class icase c x = true) w ->
  rmatch icase (Times n c) (w ++ s) caps k = k s caps.
Proof. intros <- Hw. simpl. now rewrite rep_match_exact. Qed.

Lemma rmatch_group_times n c w s caps (k : pystr -> list pystr -> option A) :
  length w = n ->
  Forall (fun x => in_class icase c x = true) w ->
  rmatch icase (Group (Times n c)) (w ++ s) caps k = k s (caps ++ [w]).
Proof.
  intros <- Hw. simpl. rewrite rep_match_exact by assumption.
  now rewrite length_app, Nat.add_sub, take_app_length.
Qed.

Lemma rmatch_Lit l : forall w s caps (k : pystr -> list pystr -> option A),
  Forall2 (fun x c => in_atom icase (ALit c) x = true) w l ->
  rmatch icase (Lit l) (w ++ s) caps k = k s caps.
Proof.
  induction l as [|c l IH]; intros w s caps k H; inversion H; subst.
  - reflexivity.
  - simpl. match goal with H : in_atom _ _ _ = true |- _ => simpl in H; rewrite H end.
    rewrite rep_match_zero. now apply IH.
Qed.
End ExactMatches.

Lemma matches_groupless icase r w cs :
  matches icase r w cs -> groupless r = true -> cs = [].
Proof.
  induction 1; simpl; intros Hg; try reflexivity; try discriminate.
  apply andb_true_iff in Hg as [H1 H2].
  now rewrite IHmatches1, IHmatches2.
Qed.

Lemma matches_Lit icase l : forall w cs,
  matches icase (Lit l) w cs ->
  cs = [] /\ Forall2 (fun x c => in_atom icase (ALit c) x = true) w l.
Proof.
  induction l as [|c l IH]; intros w cs H; simpl in H.
  - inversion H; subst. split; constructor.
  - inversion H as [| |r1 r2 w1 w2 cs1 cs2 H1 H2|]; subst.
    apply IH in H2 as [-> H2].
    inversion H1 as [|g c' lo hi w' Hw Hlo Hhi| |]; subst.
    specialize (Hhi 1 eq_refl).
    destruct w1 as [|x [|y w1]]; simpl in Hlo, Hhi; try lia.
    inversion Hw; subst. split; [reflexivity|]. simpl. now constructor.
Qed.

Lemma matches_digit4 icase w cs :
  matches icase digit4 w cs ->
  cs = [w] /\ length w = 4 /\ Forall (fun x => is_digit x = true) w.
Proof.
  intros H. inversion H as [| | |r w' cs' H1]; subst.
  inversion H1 as [|g c lo hi w' Hw Hlo Hhi| |]; subst.
  specialize (Hhi 4 eq_refl). repeat split; [lia|exact Hw].
Qed.

(** ** The card number *)

Lemma first_match_none {A} patterns text (f : list pystr -> A) dflt :
  Forall (fun p => re_search true p text = None) patterns ->
  first_match patterns text f dflt = dflt.
Proof. induction 1 as [|p ps Hp _ IH]; simpl; [|rewrite Hp]; auto. Qed.

Lemma first_match_some {A} before p after text (f : list pystr -> A) dflt m :
  Forall (fun q => re_search true q text = None) before ->
  re_search true p text = Some m ->
  first_match (before ++ p :: after) text f dflt = f m.
Proof.
  induction 1 as [|q qs Hq _ IH]; simpl; intros Hp.
  - now rewrite Hp.
  - rewrite Hq. auto.
Qed.

Lemma first_match_cases {A} (P : A -> Prop) patterns text f dflt :
  P dflt ->
  (forall p m, p ∈ patterns -> re_search true p text = Some m -> P (f m)) ->
  P (first_match patterns text f dflt).
Proof.
  intros Hd. induction patterns as [|p ps IH]; simpl; intros H; [assumption|].
  destruct (re_search true p text) eqn:E.
  - apply (H p); [left|assumption].
  - apply IH. intros q m Hq. apply H. now right.
Qed.

Lemma card_pattern_shape p :
  p ∈ card_patterns -> exists X, p = Cat X digit4 /\ groupless X = true.
Proof.
  unfold card_patterns. rewrite !elem_of_cons, elem_of_nil.
  intros [->|[->|[->|[->|[]]]]]; eexists; split; reflexivity.
Qed.

Lemma extract_card_last_4_shape text :
  _extract_card_last_4 text = [] \/ four_digits (_extract_card_last_4 text).
Proof.
  unfold _extract_card_last_4. apply first_match_cases; [now left|].
  intros p m Hp Hm. right.
  apply card_pattern_shape in Hp as (X & -> & HX).
  apply re_search_sound in Hm as (pre & w & post & _ & Hm).
  inversion Hm as [| |r1 r2 w1 w2 cs1 cs2 H1 H2|]; subst.
  apply matches_groupless in H1; [subst cs1|assumption].
  apply matches_digit4 in H2 as (-> & Hlen & Hd).
  now split.
Qed.

Lemma rmatch_Cat {A} icase r1 r2 s caps (k : pystr -> list pystr -> option A) :
  rmatch icase (Cat r1 r2) s caps k =
  rmatch icase r1 s caps (fun s' caps' => rmatch icase r2 s' caps' k).
Proof. reflexivity. Qed.

Lemma match_at_card X w d s :
  (forall s' caps (k : pystr -> list pystr -> option (list pystr)),
      rmatch true X (w ++ s') caps k = k s' caps) ->
  four_digits d ->
  match_at true (Cat X digit4) (w ++ d ++ s) = Some [d].
Proof.
  intros HX [Hlen Hd]. unfold match_at. rewrite rmatch_Cat, HX.
  unfold digit4. now rewrite rmatch_group_times.
Qed.

Lemma lower_ci w l :
  lower w = lower l ->
  Forall2 (fun x c => in_atom true (ALit c) x = true) w l.
Proof.
  revert l. induction w as [|x w IH]; intros [|c l] H; try discriminate;
    constructor.
  - simpl in *. injection H as H _. rewrite H. apply Ascii.eqb_refl.
  - apply IH. simpl in H. now injection H.
Qed.

(** ** Running the monad *)

Lemma extract_text_run file_path w :
  _extract_text_from_pdf file_path w =
  match files w file_path with
  | None => (Raise DocumentReadError, w)
  | Some doc => (Ok (text_loop (pages doc) []), w)
  end.
Proof.
  unfold _extract_text_from_pdf, with_open.
  destruct (files w file_path); [|reflexivity]. now destruct w.
Qed.

Lemma extract_transactions_run file_path w :
  _extract_transactions file_path w =
  match files w file_path with
  | None => (Raise DocumentReadError, w)
  | Some doc =>
      match pages doc !! 0 with
      | None => (Raise IndexError, w)
      | Some first_page => (Ok (scan_tables (extract_tables first_page) []), w)
      end
  end.
Proof.
  unfold _extract_transactions, with_open.
  destruct (files w file_path) as [doc|]; [|reflexivity].
  destruct (pages doc !! 0); now destruct w.
Qed.

Lemma parse_run file_path w :
  parse file_path w =
  match files w file_path with
  | None => (Raise DocumentReadError, w)
  | Some doc =>
      match pages doc !! 0 with
      | None => (Raise IndexError, w)
      | Some first_page =>
          let text := text_loop (pages doc) [] in
          (Ok (mkStatementData "Chase"
                 (_extract_card_last_4 text) (_extract_billing_cycle text)
                 (_extract_due_date text) (_extract_total_balance text)
                 (scan_tables (extract_tables first_page) [])), w)
      end
  end.
Proof.
  unfold parse, mbind, M_bind. rewrite extract_text_run.
  destruct (files w file_path) as [doc|] eqn:E; [|reflexivity].
  rewrite extract_transactions_run, E.
  now destruct (pages doc !! 0).
Qed.

(** ** Claims about the card number *)

(** C7. Whatever the document, the [card_last_4] field of the statement
    [parse] produces is the empty string or exactly four digits. *)
Theorem parse_card_last_4_empty_or_four_digits file_path w :
  match (parse file_path w).1 with
  | Ok data => card_last_4 data = [] \/ four_digits (card_last_4 data)
  | Raise _ => True
  end.
Proof.
  rewrite parse_run. destruct (files w file_path) as [doc|]; [|exact I].
  destruct (pages doc !! 0); [|exact I].
  simpl. apply extract_card_last_4_shape.
Qed.

(** C3, as the specification states it, fails: with an earlier card mask
    in front, a text that contains both "****5678" and "ending in 1234"
    yields the digits of the earlier mask. *)
Lemma card_last_4_earlier_mask_wins :
  let text := py "Old ****0000, new ****5678 ending in 1234" in
  (exists pre post, text = pre ++ py "****5678" ++ post)
  /\ (exists pre post, text = pre ++ py "ending in 1234" ++ post)
  /\ _extract_card_last_4 text = py "0000"
  /\ _extract_card_last_4 text <> py "5678".
Proof.
  split; [|split; [|split]].
  - exists (py "Old ****0000, new "), (py " ending in 1234"). reflexivity.
  - exists (py "Old ****0000, new ****5678 "), []. reflexivity.
  - vm_compute. reflexivity.
  - vm_compute. discriminate.
Qed.

(** C3 (amended). The four patterns are tried in the order asterisks,
    "ending in", "card ending", "account ending", without regard to case;
    the result is group 1 of the leftmost match of the first pattern that
    matches, and the empty string when none does.  So a text in which
    "****5678" is the leftmost four asterisks followed by four digits
    yields "5678", wherever "ending in 1234" stands; and a text without
    asterisk-prefixed digits in which "ending in 1234" is the leftmost
    "ending in" followed by four digits yields "1234". *)
Theorem card_last_4_first_pattern_leftmost_match :
  (forall text,
      Forall (fun p => re_search true p text = None) card_patterns ->
      _extract_card_last_4 text = [])
  /\ (forall text before p after m,
      card_patterns = before ++ p :: after ->
      Forall (fun q => re_search true q text = None) before ->
      re_search true p text = Some m ->
      _extract_card_last_4 text = group m 1)
  /\ (forall pre post,
      let text := pre ++ py "****5678" ++ post in
      (forall i, i < length pre ->
         match_at true card_stars (drop i text) = None) ->
      _extract_card_last_4 text = py "5678")
  /\ (forall pre e post,
      lower e = py "ending in " ->
      let text := pre ++ e ++ py "1234" ++ post in
      re_search true card_stars text = None ->
      (forall i, i < length pre ->
         match_at true card_ending_in (drop i text) = None) ->
      _extract_card_last_4 text = py "1234").
Proof.
  split; [|split; [|split]].
  - intros text H. now apply first_match_none.
  - intros text before p after m Hpat Hbefore Hp.
    unfold _extract_card_last_4. rewrite Hpat.
    now apply (first_match_some before p after text (fun m => group m 1)).
  - intros pre post text H.
    unfold _extract_card_last_4, card_patterns, first_match.
    unfold text in *. rewrite re_search_skip by exact H.
    rewrite (re_search_here _ _ _ [py "5678"]); [reflexivity|].
    apply (match_at_card _ (py "****") (py "5678") post).
    + intros s' caps k. now apply rmatch_times; [|repeat constructor].
    + split; [reflexivity|repeat constructor].
  - intros pre e post He text Hstars H.
    unfold _extract_card_last_4, card_patterns, first_match.
    rewrite Hstars. unfold text in *. rewrite re_search_skip by exact H.
    rewrite (re_search_here _ _ _ [py "1234"]); [reflexivity|].
    apply (match_at_card _ e (py "1234") post).
    + intros s' caps k. apply rmatch_Lit. now apply lower_ci.
    + split; [reflexivity|repeat constructor].
Qed.

Lemma card_last_4_first_pattern_leftmost_match_witness :
  _extract_card_last_4 (py "Card " ++ py "****5678" ++ py "; ending in 1234")
  = py "5678".
Proof.
  destruct card_last_4_first_pattern_leftmost_match as (_ & _ & H & _).
  apply (H (py "Card ") (py "; ending in 1234")).
  intros i Hi.
  do 5 (destruct i as [|i]; [vm_compute; reflexivity|]).
  simpl in Hi. lia.
Defined.

(** ** The balance *)

Lemma balance_loop_none patterns text :
  Forall (fun p => pattern_balance p text = None) patterns ->
  balance_loop patterns text = 0%Q.
Proof.
  induction 1 as [|p ps Hp _ IH]; simpl; [reflexivity|].
  unfold pattern_balance in Hp.
  destruct (re_search true p text); [now rewrite Hp|assumption].
Qed.

Lemma balance_loop_some before p after text v :
  Forall (fun q => pattern_balance q text = None) before ->
  pattern_balance p text = Some v ->
  balance_loop (before ++ p :: after) text = v.
Proof.
  induction 1 as [|q qs Hq _ IH]; simpl; intros Hp; unfold pattern_balance in *.
  - destruct (re_search true p text); [now rewrite Hp|discriminate].
  - destruct (re_search true q text); [rewrite Hq|]; auto.
Qed.

Lemma starts_with_ci_intro w needle post :
  Forall2 (fun x c => in_atom true (ALit c) x = true) w needle ->
  starts_with_ci needle (w ++ post) = true.
Proof.
  induction 1 as [|x c w needle Hx _ IH]; simpl; [reflexivity|].
  simpl in Hx. now rewrite Hx.
Qed.

Lemma contains_ci_here needle s :
  starts_with_ci needle s = true -> contains_ci needle s = true.
Proof. intros H. destruct s; simpl; now rewrite H. Qed.

Lemma contains_ci_intro pre w pfx needle post :
  Forall2 (fun x c => in_atom true (ALit c) x = true) w (pfx ++ needle) ->
  contains_ci needle (pre ++ w ++ post) = true.
Proof.
  intros H. apply Forall2_app_inv_r in H as (wa & wb & Ha & Hb & ->).
  rewrite <- (app_assoc wa), app_assoc.
  induction (pre ++ wa) as [|y l IH]; simpl.
  - apply contains_ci_here, starts_with_ci_intro, Hb.
  - rewrite IH. apply orb_true_r.
Qed.

Lemma balance_pattern_shape p :
  p ∈ balance_patterns ->
  exists pfx, p = Cat (Lit (pfx ++ py "balance")) money_tail.
Proof.
  unfold balance_patterns. rewrite !elem_of_cons, elem_of_nil.
  intros [->|[->|[->|[]]]];
    [exists (py "total ")|exists (py "current ")|exists []]; reflexivity.
Qed.

Lemma no_balance_no_match p text :
  p ∈ balance_patterns ->
  contains_ci (py "balance") text = false ->
  re_search true p text = None.
Proof.
  intros Hp Hc. apply balance_pattern_shape in Hp as (pfx & ->).
  destruct (re_search true _ text) as [m|] eqn:E; [|reflexivity].
  apply re_search_sound in E as (pre & w & post & -> & Hm).
  inversion Hm as [| |r1 r2 w1 w2 cs1 cs2 H1 H2|]; subst.
  apply matches_Lit in H1 as [_ H1].
  rewrite <- (app_assoc w1), (contains_ci_intro pre w1 pfx) in Hc by assumption.
  discriminate.
Qed.

(** C4, as the specification states it, fails in one direction: a balance
    of zero is read from a pattern that matches and parses, and the result
    is 0.0 all the same. *)
Lemma total_balance_zero_although_parsed :
  let text := py "Total Balance: $0.00" in
  _extract_total_balance text = 0%Q
  /\ pattern_balance balance_total text = Some 0%Q
  /\ ~ Forall (fun p => pattern_balance p text = None) balance_patterns.
Proof.
  split; [|split]; [vm_compute; reflexivity..|].
  intros H. inversion H as [|p ps Hp _]; subst. vm_compute in Hp. discriminate.
Qed.

(** C4 (amended). The balance patterns are tried in order; a pattern that
    does not match, or whose captured text [float] rejects once the commas
    are removed, passes on to the next one, and the result is the number of
    the first pattern that both matches and parses.  The result is 0.0
    whenever no pattern both matches and parses (a parsed balance of zero
    gives 0.0 too), in particular for every text without the word
    "balance" in any case; no exception is raised.  The last part shows a
    pattern that matches and does not parse being passed over. *)
Theorem total_balance_first_pattern_that_parses :
  (forall text before p after v,
      balance_patterns = before ++ p :: after ->
      Forall (fun q => pattern_balance q text = None) before ->
      pattern_balance p text = Some v ->
      _extract_total_balance text = v)
  /\ (forall text,
      Forall (fun p => pattern_balance p text = None) balance_patterns ->
      _extract_total_balance text = 0%Q)
  /\ (forall text,
      contains_ci (py "balance") text = false ->
      _extract_total_balance text = 0%Q)
  /\ (let text := py "Total Balance: , Current Balance: $7.25" in
      re_search true balance_total text = Some [py ","]
      /\ float_of_string (remove_char "," (py ",")) = None
      /\ _extract_total_balance text = (29 # 4)%Q).
Proof.
  split; [|split; [|split]].
  - intros text before p after v Hpat Hbefore Hp.
    unfold _extract_total_balance. rewrite Hpat.
    now apply balance_loop_some.
  - intros text H. now apply balance_loop_none.
  - intros text H. apply balance_loop_none.
    apply Forall_forall. intros p Hp.
    unfold pattern_balance. now rewrite no_balance_no_match.
  - vm_compute. repeat split.
Qed.

Lemma total_balance_first_pattern_that_parses_witness :
  _extract_total_balance (py "Payment due: 02/15/2024, card ****9999") = 0%Q.
Proof.
  destruct total_balance_first_pattern_that_parses as (_ & _ & H & _).
  apply H. vm_compute. reflexivity.
Defined.

(** ** The transaction table *)

Lemma scan_rows_omap rows : forall acc,
  scan_rows rows acc = acc ++ omap row_transaction rows.
Proof.
  induction rows as [|r rows IH]; intros acc; simpl.
  - now rewrite app_nil_r.
  - destruct (row_transaction r); rewrite IH; [|reflexivity].
    now rewrite <- app_assoc.
Qed.

Lemma scan_tables_concat tables : forall acc,
  scan_tables tables acc = acc ++ concat (map table_transactions tables).
Proof.
  induction tables as [|t tables IH]; intros acc; simpl.
  - now rewrite app_nil_r.
  - unfold table_transactions. destruct (length t <? 2); rewrite IH;
      [reflexivity|].
    now rewrite scan_rows_omap, <- app_assoc.
Qed.

Lemma str_in_false s l : str_in s l = false -> s ∉ l.
Proof. unfold str_in. apply bool_decide_eq_false. Qed.

Lemma re_sub_amount amount :
  re_sub_class not_amount_char amount = List.filter keeps_amount_char amount.
Proof.
  unfold re_sub_class. apply List.filter_ext. intros x.
  unfold keeps_amount_char. simpl.
  rewrite negb_involutive, orb_false_r, !orb_assoc. reflexivity.
Qed.

(** A row that passes the header test is decided by its amount alone. *)
Lemma row_transaction_accepted c0 c1 c2 rest :
  str_in (lower (cell_str c0)) date_headers
  || str_in (lower (cell_str c1)) description_headers
  || str_in (lower (cell_str c2)) amount_headers = false ->
  row_transaction (c0 :: c1 :: c2 :: rest) =
  match parse_amount (cell_str c2) with
  | Some v => Some (Transaction (cell_str c0) (cell_str c1) v)
  | None => None
  end.
Proof.
  intros H. unfold row_transaction. rewrite H.
  apply orb_false_iff in H as [H H2]. apply orb_false_iff in H as [H0 H1].
  apply str_in_false in H0, H1, H2.
  assert (N0 : cell_str c0 <> []).
  { intros E. apply H0. rewrite E. unfold date_headers. rewrite !elem_of_cons. tauto. }
  assert (N1 : cell_str c1 <> []).
  { intros E. apply H1. rewrite E. unfold description_headers. rewrite !elem_of_cons. tauto. }
  assert (N2 : cell_str c2 <> []).
  { intros E. apply H2. rewrite E. unfold amount_headers. rewrite !elem_of_cons. tauto. }
  now rewrite !bool_decide_eq_false_2 by assumption.
Qed.

Lemma row_transaction_emits r t :
  row_transaction r = Some t -> emits r t /\ header_row r = false
    /\ Date t <> [] /\ Description t <> [].
Proof.
  destruct r as [|c0 [|c1 [|c2 rest]]]; try discriminate.
  unfold row_transaction.
  destruct (str_in (lower (cell_str c0)) date_headers) eqn:H0; [discriminate|].
  destruct (str_in (lower (cell_str c1)) description_headers) eqn:H1;
    [discriminate|].
  simpl orb at 1.
  destruct (str_in (lower (cell_str c2)) amount_headers); [discriminate|].
  simpl orb at 1.
  destruct (bool_decide (cell_str c0 = [])) eqn:N0; [discriminate|].
  destruct (bool_decide (cell_str c1 = [])) eqn:N1; [discriminate|].
  simpl orb at 1.
  destruct (bool_decide (cell_str c2 = [])); [discriminate|].
  destruct (parse_amount (cell_str c2)) as [v|] eqn:Hv; [|discriminate].
  intros [= <-]. apply bool_decide_eq_false in N0, N1.
  repeat split; try assumption.
  - now exists c0, c1, c2, rest.
  - unfold header_row, row_cell. simpl. now rewrite H0, H1.
Qed.

Lemma scan_tables_elem tables t :
  t ∈ scan_tables tables [] ->
  exists tbl r, tbl ∈ tables /\ r ∈ tbl /\ row_transaction r = Some t.
Proof.
  rewrite scan_tables_concat. simpl. rewrite list_elem_of_In, in_concat.
  intros (l & Hl & Ht). apply in_map_iff in Hl as (tbl & <- & Htbl).
  unfold table_transactions in Ht. destruct (length tbl <? 2); [easy|].
  apply list_elem_of_In, list_elem_of_omap in Ht as (r & Hr & Hrt).
  exists tbl, r. now rewrite list_elem_of_In.
Qed.

Lemma omap_cons_none {A B} (f : A -> option B) x l :
  f x = None -> omap f (x :: l) = omap f l.
Proof. intros H. simpl. now rewrite H. Qed.

Lemma row_transaction_bad_amount c0 c1 c2 rest :
  parse_amount (cell_str c2) = None ->
  row_transaction (c0 :: c1 :: c2 :: rest) = None.
Proof.
  intros H. unfold row_transaction. rewrite H.
  now repeat match goal with |- context [if ?b then _ else _] => destruct b end.
Qed.

(** ** Claims about the transaction table *)

(** C2, as the specification states it, fails: a minus sign behind the
    digits is not removed, so the amount does not parse and the row is
    discarded, where the specification's normalization reads 50.00. *)
Lemma trailing_minus_row_discarded :
  let r := [Some (py "01/07/2024"); Some (py "Refund"); Some (py "50.00-")] in
  row_transaction r = None
  /\ float_of_string (remove_char "," (normalize_amount_spec (py "50.00-")))
     = Some 50%Q.
Proof. split; vm_compute; reflexivity. Qed.

(** C2 (amended). For a row that passes the header and blank tests, the
    amount cell is normalized by removing every character that is not a
    digit, a period, a comma or a minus sign (a minus sign is kept wherever
    it stands), then removing the commas, then reading the result as a
    decimal; the row is emitted with that number and discarded when the
    reading fails.  The amount cell "$1,234.56" gives 1234.56 and "-$50.00"
    gives -50.00. *)
Theorem amount_normalized_then_parsed c0 c1 c2 rest :
  str_in (lower (cell_str c0)) date_headers
  || str_in (lower (cell_str c1)) description_headers
  || str_in (lower (cell_str c2)) amount_headers = false ->
  row_transaction (c0 :: c1 :: c2 :: rest) =
    match float_of_string
            (List.filter (fun x => negb (char_eqb x ","))
               (List.filter keeps_amount_char (cell_str c2))) with
    | Some v => Some (Transaction (cell_str c0) (cell_str c1) v)
    | None => None
    end
  /\ parse_amount (py "$1,234.56") = Some (30864 # 25)%Q
  /\ (30864 # 25 == 123456 # 100)%Q
  /\ parse_amount (py "-$50.00") = Some (-50)%Q.
Proof.
  intros H. split; [|split; [|split]]; [|vm_compute; reflexivity..].
  rewrite row_transaction_accepted by assumption.
  unfold parse_amount. now rewrite re_sub_amount.
Qed.

Lemma amount_normalized_then_parsed_witness :
  row_transaction [Some (py "01/05/2024"); Some (py " Coffee Shop");
                   Some (py "$1,234.56 ")]
  = Some (Transaction (py "01/05/2024") (py "Coffee Shop") (30864 # 25)%Q).
Proof.
  assert (Hrow : str_in (lower (cell_str (Some (py "01/05/2024")))) date_headers
                 || str_in (lower (cell_str (Some (py " Coffee Shop"))))
                      description_headers
                 || str_in (lower (cell_str (Some (py "$1,234.56 "))))
                      amount_headers = false)
    by (vm_compute; reflexivity).
  destruct (amount_normalized_then_parsed _ _ _ [] Hrow) as [H _].
  refine (eq_trans H _). vm_compute. reflexivity.
Defined.

(** C5. A row whose trimmed date cell is, in any case, "date",
    "transaction date" or empty, or whose trimmed description cell is
    "description", "merchant" or empty, is skipped, and every transaction
    of the output comes from a row of the tables that is not such a row.
    The rows ["Date","Description","Amount"] and ["DATE","desc",""] are
    skipped. *)
Theorem header_rows_never_emitted :
  (forall r, header_row r = true -> row_transaction r = None)
  /\ (forall tables t,
        t ∈ scan_tables tables [] ->
        exists tbl r, tbl ∈ tables /\ r ∈ tbl /\ header_row r = false
          /\ row_transaction r = Some t)
  /\ row_transaction
       [Some (py "Date"); Some (py "Description"); Some (py "Amount")] = None
  /\ row_transaction [Some (py "DATE"); Some (py "desc"); Some (py "")] = None.
Proof.
  split; [|split; [|split]]; [| |vm_compute; reflexivity..].
  - intros r H. destruct (row_transaction r) as [t|] eqn:E; [|reflexivity].
    apply row_transaction_emits in E as (_ & E & _). congruence.
  - intros tables t Ht.
    apply scan_tables_elem in Ht as (tbl & r & Htbl & Hr & Hrt).
    exists tbl, r. repeat split; try assumption.
    now apply row_transaction_emits in Hrt.
Qed.

Lemma header_rows_never_emitted_witness :
  row_transaction
    [Some (py " Transaction Date "); Some (py "Merchant"); Some (py "$1.00")]
  = None.
Proof.
  destruct header_rows_never_emitted as (H & _).
  apply H. vm_compute. reflexivity.
Defined.

(** C6, as the specification states it, fails: in a table of two rows the
    row with the bad amount is what makes the table long enough to be
    scanned; without it the table is skipped and the other row is lost. *)
Lemma bad_row_keeps_two_row_table_alive :
  let good := [Some (py "01/05/2024"); Some (py "Coffee Shop"); Some (py "$4.50")] in
  let bad := [Some (py "01/06/2024"); Some (py "Adjustment"); Some (py "N/A")] in
  parse_amount (cell_str (Some (py "N/A"))) = None
  /\ scan_tables [[good; bad]] []
     = [Transaction (py "01/05/2024") (py "Coffee Shop") (9 # 2)%Q]
  /\ scan_tables [[good]] [] = []
  /\ scan_tables [[good; bad]] [] <> scan_tables [[good]] [].
Proof. repeat split; try (vm_compute; reflexivity). vm_compute. discriminate. Qed.

(** C6 (amended). A row whose third cell does not read as a number after
    normalization is absent from the output, and the output is what it
    would be without that row, provided the row's table has at least two
    other rows: the remaining rows are accepted and emitted as before,
    in every table.  (A table left with fewer than two rows is skipped
    whole.) *)
Theorem bad_amount_row_skipped_alone before above below after c0 c1 c2 rest :
  parse_amount (cell_str c2) = None ->
  2 <= length (above ++ below) ->
  row_transaction (c0 :: c1 :: c2 :: rest) = None
  /\ scan_tables (before ++ (above ++ (c0 :: c1 :: c2 :: rest) :: below) :: after) []
     = scan_tables (before ++ (above ++ below) :: after) [].
Proof.
  intros Hbad Hlen.
  pose proof (row_transaction_bad_amount c0 c1 c2 rest Hbad) as Hnone.
  split; [assumption|].
  rewrite !scan_tables_concat, !map_app. simpl. do 3 f_equal.
  unfold table_transactions.
  rewrite length_app in Hlen. rewrite !length_app. simpl.
  replace (length above + S (length below) <? 2) with false
    by (symmetry; apply Nat.ltb_ge; lia).
  replace (length above + length below <? 2) with false
    by (symmetry; apply Nat.ltb_ge; lia).
  rewrite !omap_app. f_equal. now apply omap_cons_none.
Qed.

Lemma bad_amount_row_skipped_alone_witness :
  scan_tables
    [[ [Some (py "Date"); Some (py "Description"); Some (py "Amount")];
       [Some (py "01/06/2024"); Some (py "Adjustment"); Some (py "N/A")];
       [Some (py "01/10/2024"); Some (py "Grocery"); Some (py "$88.20")] ]] []
  = scan_tables
      [[ [Some (py "Date"); Some (py "Description"); Some (py "Amount")];
         [Some (py "01/10/2024"); Some (py "Grocery"); Some (py "$88.20")] ]] [].
Proof.
  apply (bad_amount_row_skipped_alone []
           [[Some (py "Date"); Some (py "Description"); Some (py "Amount")]]
           [[Some (py "01/10/2024"); Some (py "Grocery"); Some (py "$88.20")]]
           [] (Some (py "01/06/2024")) (Some (py "Adjustment"))
           (Some (py "N/A")) []).
  - vm_compute. reflexivity.
  - simpl. lia.
Defined.


(** ** What [float] is given *)

Lemma lower_char_comma x : char_eqb (lower_char x) ","%char = true -> x = ","%char.
Proof.
  destruct x as [[] [] [] [] [] [] [] []]; vm_compute; intros H; congruence.
Qed.

Lemma lower_char_point x : char_eqb (lower_char x) "."%char = true -> x = "."%char.
Proof.
  destruct x as [[] [] [] [] [] [] [] []]; vm_compute; intros H; congruence.
Qed.

Lemma remove_comma_alphabet s :
  Forall (fun x => float_char x \/ x = ","%char) s ->
  Forall float_char (remove_char "," s).
Proof.
  induction 1 as [|x s Hx _ IH]; simpl; [constructor|].
  destruct (char_eqb x ",") eqn:E; simpl; [assumption|].
  constructor; [|assumption]. destruct Hx as [Hx| ->]; [assumption|].
  now rewrite Ascii.eqb_refl in E.
Qed.

Lemma parse_amount_alphabet amount :
  Forall float_char (remove_char "," (re_sub_class not_amount_char amount)).
Proof.
  apply remove_comma_alphabet. rewrite re_sub_amount.
  apply Forall_forall. intros x Hx.
  apply list_elem_of_In, filter_In in Hx as [_ Hx].
  unfold keeps_amount_char in Hx. unfold float_char.
  repeat (apply orb_true_iff in Hx as [Hx|Hx]);
    try (apply Ascii.eqb_eq in Hx); auto.
Qed.

Lemma matches_money_tail w cs :
  matches true money_tail w cs ->
  exists g, cs = [g] /\ Forall (fun x => float_char x \/ x = ","%char) g.
Proof.
  unfold money_tail. simpl. intros H.
  repeat match goal with
  | H : matches _ (Cat _ _) _ _ |- _ => inversion H; subst; clear H
  | H : matches _ (Group _) _ _ |- _ => inversion H; subst; clear H
  | H : matches _ (Plus _) _ _ |- _ => inversion H; subst; clear H
  | H : matches _ (Opt _) _ _ |- _ => inversion H; subst; clear H
  | H : matches _ (Star _) _ _ |- _ => inversion H; subst; clear H
  end.
  eexists. split; [reflexivity|].
  repeat apply Forall_app_2.
  - eapply Forall_impl; [eassumption|]. intros x Hx. simpl in Hx.
    rewrite orb_false_r in Hx. apply orb_true_iff in Hx as [Hx|Hx].
    + left. now left.
    + right. now apply lower_char_comma.
  - eapply Forall_impl; [eassumption|]. intros x Hx. simpl in Hx.
    left. right. left. now apply lower_char_point.
  - eapply Forall_impl; [eassumption|]. intros x Hx. left. now left.
Qed.

Lemma balance_capture_alphabet p text m :
  p ∈ balance_patterns ->
  re_search true p text = Some m ->
  Forall float_char (remove_char "," (group m 1)).
Proof.
  intros Hp Hm. apply balance_pattern_shape in Hp as (pfx & ->).
  apply re_search_sound in Hm as (pre & w & post & _ & Hm).
  inversion Hm as [| |r1 r2 w1 w2 cs1 cs2 H1 H2|]; subst. clear Hm.
  apply matches_Lit in H1 as [-> _].
  apply matches_money_tail in H2 as (g & -> & Hg).
  change (group ([] ++ [g]) 1) with g. now apply remove_comma_alphabet.
Qed.

(** ** The full text *)

Lemma text_loop_acc ps : forall text,
  text_loop ps text = text ++ concat (map (fun t => t ++ [NL]) (kept_texts ps)).
Proof.
  induction ps as [|p ps IH]; intros text; simpl.
  - now rewrite app_nil_r.
  - unfold kept_texts. simpl. destruct (extract_text p) as [[|c t]|]; simpl;
      rewrite IH; try reflexivity.
    fold (kept_texts ps). now rewrite <- app_assoc.
Qed.

Lemma join_nl_terminated l :
  l <> [] -> concat (map (fun t => t ++ [NL]) l) = join_nl l ++ [NL].
Proof.
  induction l as [|s [|s' l] IH]; intros H; [congruence| |].
  - simpl. now rewrite app_nil_r.
  - change (concat (map (fun t => t ++ [NL]) (s :: s' :: l)))
      with ((s ++ [NL]) ++ concat (map (fun t => t ++ [NL]) (s' :: l))).
    rewrite IH by discriminate.
    change (join_nl (s :: s' :: l)) with (s ++ [NL] ++ join_nl (s' :: l)).
    now rewrite <- !app_assoc.
Qed.

(** C10, as the specification states it, fails: the text of a one-page
    document ends with a newline, which joining with separators does not
    produce. *)
Lemma full_text_ends_with_newline :
  (_extract_text_from_pdf (py "letter.pdf") small_world).1
  = Ok (py "Dear customer" ++ [NL])
  /\ full_text_spec [Page (Some (py "Dear customer")) []] = py "Dear customer"
  /\ (_extract_text_from_pdf (py "letter.pdf") small_world).1
     <> Ok (full_text_spec [Page (Some (py "Dear customer")) []]).
Proof. repeat split; try (vm_compute; reflexivity). vm_compute. discriminate. Qed.

(** C10 (amended). For a document that opens, full-text extraction returns
    the non-empty page texts in page order, each followed by a newline,
    skipping the pages whose extraction yields no text: the empty string
    when no page has text, and otherwise the kept texts joined with
    newline separators and one more newline at the end. *)
Theorem extract_text_newline_after_each_page file_path w doc :
  files w file_path = Some doc ->
  exists text,
    (_extract_text_from_pdf file_path w).1 = Ok text
    /\ text = concat (map (fun t => t ++ [NL]) (kept_texts (pages doc)))
    /\ (kept_texts (pages doc) = [] -> text = [])
    /\ (kept_texts (pages doc) <> [] ->
        text = full_text_spec (pages doc) ++ [NL]).
Proof.
  intros Hdoc. rewrite extract_text_run, Hdoc. simpl.
  eexists; split; [reflexivity|]. rewrite text_loop_acc. simpl.
  split; [reflexivity|]. split.
  - now intros ->.
  - apply join_nl_terminated.
Qed.

Lemma extract_text_newline_after_each_page_witness :
  exists text,
    (_extract_text_from_pdf (py "letter.pdf") small_world).1 = Ok text
    /\ text = py "Dear customer" ++ [NL].
Proof.
  assert (Hdoc : files small_world (py "letter.pdf")
                 = Some (Pdf [Page (Some (py "Dear customer")) []]))
    by (vm_compute; reflexivity).
  destruct (extract_text_newline_after_each_page _ _ _ Hdoc)
    as (text & H & -> & _).
  eexists. split; [exact H|reflexivity].
Defined.

(** ** Claims about the whole parse *)

(** C1. A document that opens and has no pages makes the extraction of
    transactions raise [IndexError], and [parse] with it, although the
    extraction of the text of the same document returns the empty string;
    a first page without tables gives the empty list. *)
Theorem extract_transactions_no_pages_raises file_path w doc :
  files w file_path = Some doc ->
  (pages doc = [] ->
     (_extract_transactions file_path w).1 = Raise IndexError
     /\ (_extract_text_from_pdf file_path w).1 = Ok []
     /\ (parse file_path w).1 = Raise IndexError)
  /\ (forall first_page,
        pages doc !! 0 = Some first_page ->
        extract_tables first_page = [] ->
        (_extract_transactions file_path w).1 = Ok []).
Proof.
  intros Hdoc. split.
  - intros Hp. rewrite extract_transactions_run, extract_text_run, parse_run.
    rewrite Hdoc, Hp. repeat split.
  - intros first_page Hp Ht. rewrite extract_transactions_run, Hdoc, Hp, Ht.
    reflexivity.
Qed.

Lemma extract_transactions_no_pages_raises_witness :
  (_extract_transactions (py "empty.pdf") small_world).1 = Raise IndexError.
Proof.
  assert (Hdoc : files small_world (py "empty.pdf") = Some (Pdf []))
    by (vm_compute; reflexivity).
  destruct (extract_transactions_no_pages_raises _ _ _ Hdoc) as [H _].
  apply H. reflexivity.
Defined.

Lemma text_loop_ext ps ps' text :
  map extract_text ps = map extract_text ps' ->
  text_loop ps text = text_loop ps' text.
Proof.
  revert ps' text. induction ps as [|p ps IH]; intros [|p' ps'] text H;
    try discriminate; [reflexivity|].
  simpl in *. injection H as -> H. destruct (extract_text p') as [[|c t]|]; auto.
Qed.

(** The result is a function of the extracted text and tables alone. *)
Lemma parse_depends_on_extracted_data file_path w w' doc doc' :
  files w file_path = Some doc ->
  files w' file_path = Some doc' ->
  map extract_text (pages doc) = map extract_text (pages doc') ->
  extract_tables <$> pages doc !! 0 = extract_tables <$> pages doc' !! 0 ->
  (parse file_path w).1 = (parse file_path w').1.
Proof.
  intros H H' Ht Htab. rewrite !parse_run, H, H'.
  rewrite (text_loop_ext _ _ _ Ht).
  destruct (pages doc !! 0), (pages doc' !! 0); simpl in *; try discriminate;
    [|reflexivity].
  now injection Htab as ->.
Qed.

(** C9. [parse] leaves the document store as it found it, so a second call
    on the same path reads the same document and returns a result equal to
    the first, be it a statement or an exception. *)
Theorem parse_twice_same_result file_path w :
  let '(r1, w1) := parse file_path w in
  let '(r2, w2) := parse file_path w1 in
  r1 = r2 /\ w1 = w /\ w2 = w.
Proof.
  assert (H : forall v, (parse file_path v).2 = v).
  { intros v. rewrite parse_run. destruct (files v file_path) as [doc|];
      [|reflexivity]. now destruct (pages doc !! 0). }
  destruct (parse file_path w) as [r1 w1] eqn:E1.
  pose proof (H w) as H1. rewrite E1 in H1. simpl in H1. subst w1.
  rewrite E1. auto.
Qed.


Example parse_unreadable :
  (parse (py "notes.txt") sample_world).1 = Raise DocumentReadError.
Proof. vm_compute. reflexivity. Qed.

(** * Further properties *)

(** ** Signs *)

Lemma float_of_string_unsigned s :
  "-"%char ∉ s -> exists body, float_of_string s = read_unsigned false body.
Proof.
  intros H. destruct s as [|c s]; [now exists []|].
  assert (Hc : c <> "-"%char) by (intros ->; apply H; left).
  clear H. unfold float_of_string.
  destruct c as [[] [] [] [] [] [] [] []];
    try (eexists; reflexivity). now destruct Hc.
Qed.

Lemma digits_fold_nonneg ds :
  Forall (fun x => is_digit x = true) ds ->
  forall acc, (0 <= acc)%Z ->
  (0 <= fold_left (fun acc c => 10 * acc + digit_val c) ds acc)%Z.
Proof.
  induction 1 as [|x ds Hx _ IH]; intros acc Hacc; simpl; [assumption|].
  apply IH. unfold is_digit in Hx. apply andb_true_iff in Hx as [Hx _].
  apply Nat.leb_le in Hx. unfold digit_val. lia.
Qed.

Lemma span_digits_digits s :
  Forall (fun x => is_digit x = true) (span_digits s).1.
Proof.
  induction s as [|c s IH]; simpl; [constructor|].
  destruct (is_digit c) eqn:E; [|constructor].
  destruct (span_digits s) as [d r]. simpl in *. now constructor.
Qed.

Lemma decimal_nonneg ip fp :
  Forall (fun x => is_digit x = true) ip ->
  Forall (fun x => is_digit x = true) fp ->
  (0 <= decimal false ip fp)%Q.
Proof.
  intros Hi Hf. unfold decimal. rewrite Qred_correct.
  unfold Qle. simpl. rewrite Z.mul_1_r.
  apply digits_fold_nonneg; [|lia]. now apply Forall_app_2.
Qed.

Lemma read_unsigned_nonneg body v :
  read_unsigned false body = Some v -> (0 <= v)%Q.
Proof.
  unfold read_unsigned. pose proof (span_digits_digits body) as Hip.
  destruct (span_digits body) as [ip rest]. simpl in Hip.
  destruct rest as [|c fp].
  - destruct ip; [discriminate|]. intros [= <-].
    apply decimal_nonneg; [assumption|constructor].
  - destruct (Ascii.eqb_spec c ".") as [->|Hc].
    + destruct (forallb is_digit fp) eqn:Hf; [|discriminate].
      simpl. destruct (negb _); [|discriminate]. intros [= <-].
      apply decimal_nonneg; [assumption|].
      apply Forall_forall. intros x Hx.
      rewrite forallb_forall in Hf. apply Hf. now apply list_elem_of_In.
    + destruct c as [[] [] [] [] [] [] [] []]; try discriminate.
      now destruct Hc.
Qed.

Lemma float_of_string_nonneg s v :
  "-"%char ∉ s -> float_of_string s = Some v -> (0 <= v)%Q.
Proof.
  intros H Hv. apply float_of_string_unsigned in H as (body & H).
  rewrite H in Hv. now apply read_unsigned_nonneg in Hv.
Qed.

Lemma remove_char_notin c x s : x ∉ s -> x ∉ remove_char c s.
Proof.
  intros H Hx. apply H. unfold remove_char in Hx.
  apply list_elem_of_In, filter_In in Hx as [Hx _]. now apply list_elem_of_In.
Qed.

Lemma matches_money_tail_unsigned w cs :
  matches true money_tail w cs ->
  exists g, cs = [g] /\ g <> [] /\ Forall unsigned_char g.
Proof.
  unfold money_tail. simpl. intros H.
  repeat match goal with
  | H : matches _ (Cat _ _) _ _ |- _ => inversion H; subst; clear H
  | H : matches _ (Group _) _ _ |- _ => inversion H; subst; clear H
  | H : matches _ (Plus _) _ _ |- _ => inversion H; subst; clear H
  | H : matches _ (Opt _) _ _ |- _ => inversion H; subst; clear H
  | H : matches _ (Star _) _ _ |- _ => inversion H; subst; clear H
  end.
  eexists. split; [reflexivity|]. split.
  - match goal with H : 1 <= length ?w |- ?w ++ _ <> [] =>
      destruct w; [simpl in H; lia|discriminate] end.
  - repeat apply Forall_app_2.
    + eapply Forall_impl; [eassumption|]. intros x Hx. simpl in Hx.
      rewrite orb_false_r in Hx. apply orb_true_iff in Hx as [Hx|Hx].
      * now left.
      * right. right. now apply lower_char_comma.
    + eapply Forall_impl; [eassumption|]. intros x Hx. simpl in Hx.
      right. left. now apply lower_char_point.
    + eapply Forall_impl; [eassumption|]. intros x Hx. now left.
Qed.

Lemma unsigned_no_minus g : Forall unsigned_char g -> "-"%char ∉ g.
Proof.
  intros H Hin. rewrite Forall_forall in H.
  destruct (H _ Hin) as [Hd|[Hd|Hd]]; discriminate.
Qed.

Lemma extract_total_balance_nonneg text :
  (0 <= _extract_total_balance text)%Q.
Proof.
  unfold _extract_total_balance.
  assert (H : forall ps, (forall p, p ∈ ps -> p ∈ balance_patterns) ->
                         (0 <= balance_loop ps text)%Q).
  { induction ps as [|p ps IH]; intros Hps; simpl; [discriminate|].
    assert (IH' : (0 <= balance_loop ps text)%Q)
      by (apply IH; intros q Hq; apply Hps; now right).
    destruct (re_search true p text) as [m|] eqn:E; [|assumption].
    destruct (float_of_string _) as [v|] eqn:Hv; [|assumption].
    apply float_of_string_nonneg in Hv; [assumption|].
    apply remove_char_notin, unsigned_no_minus.
    assert (Hp : p ∈ balance_patterns) by (apply Hps; left).
    apply balance_pattern_shape in Hp as (pfx & ->).
    apply re_search_sound in E as (pre & w & post & _ & Hm).
    inversion Hm as [| |r1 r2 w1 w2 cs1 cs2 H1 H2|]; subst. clear Hm.
    apply matches_Lit in H1 as [-> _].
    apply matches_money_tail_unsigned in H2 as (g & -> & _ & Hg).
    exact Hg. }
  apply H. auto.
Qed.

(** ** Amount cells *)

(** X2. A character of the amount cell that is not a digit, a point or a
    minus sign has no influence on the amount read: currency signs,
    letters, spaces, parentheses and commas can be removed or inserted
    anywhere. *)
Theorem parse_amount_ignores_other_characters a c b :
  is_digit c = false -> c <> "."%char -> c <> "-"%char ->
  parse_amount (a ++ c :: b) = parse_amount (a ++ b).
Proof.
  intros Hd Hp Hm. unfold parse_amount. f_equal.
  rewrite !re_sub_amount. unfold remove_char.
  rewrite !List.filter_app. f_equal. cbn [List.filter].
  destruct (keeps_amount_char c) eqn:E; [|reflexivity].
  cbn [List.filter].
  assert (Hc : char_eqb c "," = true).
  { unfold keeps_amount_char in E. rewrite Hd in E.
    apply Ascii.eqb_neq in Hp, Hm. unfold char_eqb in *.
    rewrite Hp, Hm in E. simpl in E. now rewrite orb_false_r in E. }
  now rewrite Hc.
Qed.

Lemma parse_amount_ignores_other_characters_witness :
  parse_amount (py "$1" ++ ","%char :: py "234.56")
  = parse_amount (py "$1" ++ py "234.56").
Proof.
  apply parse_amount_ignores_other_characters;
    [reflexivity|discriminate|discriminate].
Defined.

(** X3. An amount cell without a minus sign never gives a negative amount;
    so an amount set in parentheses reads as positive. *)
Theorem parse_amount_without_minus_nonneg amount v :
  "-"%char ∉ amount ->
  parse_amount amount = Some v ->
  (0 <= v)%Q.
Proof.
  intros H Hv. unfold parse_amount in Hv.
  apply float_of_string_nonneg in Hv; [assumption|].
  apply remove_char_notin. intros Hin. apply H.
  unfold re_sub_class in Hin.
  apply list_elem_of_In, filter_In in Hin as [Hin _]. now apply list_elem_of_In.
Qed.

Lemma parse_amount_without_minus_nonneg_witness :
  parse_amount (py "(12.50)") = Some (25 # 2)%Q /\ (0 <= 25 # 2)%Q.
Proof.
  split; [vm_compute; reflexivity|].
  apply (parse_amount_without_minus_nonneg (py "(12.50)")).
  - intros H. apply list_elem_of_In in H. simpl in H. intuition discriminate.
  - vm_compute. reflexivity.
Defined.

(** ** White space *)

Lemma lstrip_split s :
  exists sp, s = sp ++ lstrip s /\ Forall (fun x => is_space x = true) sp.
Proof.
  induction s as [|x s (sp & Hs & Hsp)]; [now exists []|].
  simpl. destruct (is_space x) eqn:E.
  - exists (x :: sp). split; [simpl; now f_equal|now constructor].
  - now exists [].
Qed.

Lemma rstrip_split s :
  exists sp, s = rstrip s ++ sp /\ Forall (fun x => is_space x = true) sp.
Proof.
  destruct (lstrip_split (reverse s)) as (sp & Hs & Hsp).
  exists (reverse sp). split; [|now apply Forall_reverse].
  unfold rstrip. rewrite <- reverse_app, <- Hs. now rewrite reverse_involutive.
Qed.

Lemma lstrip_clean s : starts_clean (lstrip s).
Proof.
  induction s as [|x s IH]; simpl; [exact I|].
  destruct (is_space x) eqn:E; [assumption|exact E].
Qed.

Lemma lstrip_fixed s : starts_clean s -> lstrip s = s.
Proof. destruct s as [|x s]; simpl; [reflexivity|]. now intros ->. Qed.

Lemma strip_trimmed s : trimmed (strip s).
Proof.
  unfold strip, trimmed. split.
  - pose proof (lstrip_clean s) as Hc.
    destruct (rstrip_split (lstrip s)) as (sp & Hs & _).
    destruct (rstrip (lstrip s)) as [|x u]; [exact I|].
    rewrite Hs in Hc. exact Hc.
  - unfold rstrip. rewrite reverse_involutive. apply lstrip_clean.
Qed.

Lemma strip_fixed s : trimmed s -> strip s = s.
Proof.
  intros [H1 H2]. unfold strip, rstrip.
  rewrite (lstrip_fixed s H1), (lstrip_fixed _ H2).
  apply reverse_involutive.
Qed.

Lemma strip_Forall (P : ascii -> Prop) s : Forall P s -> Forall P (strip s).
Proof.
  intros H. unfold strip.
  destruct (lstrip_split s) as (sp & Hs & _).
  destruct (rstrip_split (lstrip s)) as (sp' & Hs' & _).
  rewrite Hs, Hs' in H.
  apply Forall_app in H as [_ H]. now apply Forall_app in H as [H _].
Qed.

(** ** Shapes of the text fields *)

Lemma first_match_default_iff {A} patterns text (f : list pystr -> A) dflt :
  (forall p m, p ∈ patterns -> re_search true p text = Some m -> f m <> dflt) ->
  first_match patterns text f dflt = dflt
  <-> Forall (fun p => re_search true p text = None) patterns.
Proof.
  intros Hf. split; [|apply first_match_none].
  induction patterns as [|p ps IH]; simpl; [constructor|].
  destruct (re_search true p text) as [m|] eqn:E.
  - intros H. exfalso. apply (Hf p m); [left|assumption..].
  - intros H. constructor; [assumption|].
    apply IH; [|assumption]. intros q m Hq. apply Hf. now right.
Qed.

Lemma card_match_group p text m :
  p ∈ card_patterns -> re_search true p text = Some m ->
  four_digits (group m 1).
Proof.
  intros Hp Hm. apply card_pattern_shape in Hp as (X & -> & HX).
  apply re_search_sound in Hm as (pre & w & post & _ & Hm).
  inversion Hm as [| |r1 r2 w1 w2 cs1 cs2 H1 H2|]; subst.
  apply matches_groupless in H1; [subst cs1|assumption].
  apply matches_digit4 in H2 as (-> & Hlen & Hd).
  now split.
Qed.

Lemma lower_char_slash x : char_eqb (lower_char x) "/"%char = true -> x = "/"%char.
Proof.
  destruct x as [[] [] [] [] [] [] [] []]; vm_compute; intros H; congruence.
Qed.

Lemma one_char c (w : pystr) :
  Forall (fun x => in_class true (One (ALit c)) x = true) w ->
  1 <= length w -> (forall h, Some 1 = Some h -> length w <= h) ->
  exists x, w = [x] /\ char_eqb (lower_char x) (lower_char c) = true.
Proof.
  intros Hw Hlo Hhi. specialize (Hhi 1 eq_refl).
  destruct w as [|x [|y w]]; simpl in *; try lia.
  exists x. split; [reflexivity|]. now inversion Hw.
Qed.

Lemma matches_date_tail w cs :
  matches true date_tail w cs -> exists g, cs = [g] /\ date_shape g.
Proof.
  unfold date_tail, Seq, Plus, Between, Chr, Times. intros H. invert_matches.
  repeat match goal with
  | H : Forall (fun x => in_class true (One (ALit _)) x = true) ?w,
    H1 : 1 <= length ?w, H2 : forall h, Some 1 = Some h -> _ |- _ =>
      destruct (one_char _ _ H H1 H2) as (? & -> & ?%lower_char_slash);
      subst; clear H H1 H2
  end.
  eexists. split; [reflexivity|].
  match goal with
  | |- date_shape (?d ++ _ ++ ?m ++ _ ++ ?y) => exists d, m, y
  end.
  repeat match goal with
  | H : forall h, Some ?n = Some h -> _ |- _ => specialize (H n eq_refl)
  end.
  split; [reflexivity|]. split; [|lia].
  repeat apply Forall_app_2; assumption.
Qed.

Lemma due_pattern_shape p :
  p ∈ due_patterns -> exists l, p = Cat (Lit l) date_tail.
Proof.
  unfold due_patterns. rewrite !elem_of_cons, elem_of_nil.
  intros [->|[->|[->|[]]]]; eexists; reflexivity.
Qed.

Lemma due_match_group p text m :
  p ∈ due_patterns -> re_search true p text = Some m -> date_shape (group m 1).
Proof.
  intros Hp Hm. apply due_pattern_shape in Hp as (l & ->).
  apply re_search_sound in Hm as (pre & w & post & _ & Hm).
  inversion Hm as [| |r1 r2 w1 w2 cs1 cs2 H1 H2|]; subst. clear Hm.
  apply matches_Lit in H1 as [-> _].
  now apply matches_date_tail in H2 as (g & -> & Hg).
Qed.

Lemma extract_due_date_shape text :
  _extract_due_date text = [] \/ date_shape (_extract_due_date text).
Proof.
  unfold _extract_due_date. apply first_match_cases; [now left|].
  intros p m Hp Hm. right. now apply (due_match_group p text).
Qed.

Lemma cycle_pattern_shape p :
  p ∈ cycle_patterns -> exists l, p = Cat (Lit l) period_tail.
Proof.
  unfold cycle_patterns. rewrite !elem_of_cons, elem_of_nil.
  intros [->|[->|[->|[]]]]; eexists; reflexivity.
Qed.

Lemma no_dash_nl_char x :
  in_class true no_dash_nl x = true -> x <> "-"%char /\ x <> NL.
Proof. intros H. split; intros ->; vm_compute in H; discriminate. Qed.

Lemma no_dash_nl_span (w : pystr) :
  Forall (fun x => in_class true no_dash_nl x = true) w ->
  ("-"%char ∉ w) /\ (NL ∉ w).
Proof.
  intros H. rewrite Forall_forall in H.
  split; intros Hin; apply H, no_dash_nl_char in Hin; tauto.
Qed.

Lemma strip_notin x s : x ∉ s -> x ∉ strip s.
Proof.
  intros H Hin. pose proof (strip_Forall (fun y => y <> x) s) as HF.
  rewrite !Forall_forall in HF. refine (HF _ x Hin eq_refl).
  intros y Hy ->. contradiction.
Qed.

Lemma matches_period_tail w cs :
  matches true period_tail w cs ->
  exists g1 g2, cs = [g1; g2]
    /\ Forall (fun x => in_class true no_dash_nl x = true) g1
    /\ Forall (fun x => in_class true no_dash_nl x = true) g2.
Proof.
  unfold period_tail, Seq, Plus, PlusLazy, Star, Chr. intros H.
  invert_matches. do 2 eexists. split; [reflexivity|]. now split.
Qed.

Lemma cycle_match_groups p text m :
  p ∈ cycle_patterns -> re_search true p text = Some m ->
  cycle_span (strip (group m 1)) /\ cycle_span (strip (group m 2)).
Proof.
  intros Hp Hm. apply cycle_pattern_shape in Hp as (l & ->).
  apply re_search_sound in Hm as (pre & w & post & _ & Hm).
  inversion Hm as [| |r1 r2 w1 w2 cs1 cs2 H1 H2|]; subst. clear Hm.
  apply matches_Lit in H1 as [-> _].
  apply matches_period_tail in H2 as (g1 & g2 & -> & H1 & H2).
  apply no_dash_nl_span in H1 as [? ?], H2 as [? ?].
  change (group ([] ++ [g1; g2]) 1) with g1.
  change (group ([] ++ [g1; g2]) 2) with g2.
  unfold cycle_span.
  repeat split; try apply strip_trimmed; now apply strip_notin.
Qed.

Lemma extract_billing_cycle_shape text :
  _extract_billing_cycle text = []
  \/ exists a b,
       _extract_billing_cycle text = a ++ py " - " ++ b
       /\ cycle_span a /\ cycle_span b.
Proof.
  unfold _extract_billing_cycle. apply first_match_cases; [now left|].
  intros p m Hp Hm. right.
  destruct (cycle_match_groups p text m Hp Hm) as [Ha Hb].
  now exists (strip (group m 1)), (strip (group m 2)).
Qed.

Lemma extract_billing_cycle_empty_iff text :
  _extract_billing_cycle text = []
  <-> Forall (fun p => re_search true p text = None) cycle_patterns.
Proof.
  apply first_match_default_iff. intros p m Hp Hm E.
  apply app_eq_nil in E as [_ E]. discriminate.
Qed.

Lemma extract_due_date_empty_iff text :
  _extract_due_date text = []
  <-> Forall (fun p => re_search true p text = None) due_patterns.
Proof.
  apply first_match_default_iff. intros p m Hp Hm.
  apply due_match_group in Hm as (d & mo & y & E & _ & Hd & _); [|assumption].
  rewrite E. destruct d; [simpl in Hd; lia|discriminate].
Qed.

(** X6. For the card number, the billing cycle and the due date the empty
    string means exactly that no pattern of the field matches the text: a
    match never yields an empty value. *)
Theorem text_fields_empty_iff_no_match text :
  (_extract_card_last_4 text = []
   <-> Forall (fun p => re_search true p text = None) card_patterns)
  /\ (_extract_billing_cycle text = []
      <-> Forall (fun p => re_search true p text = None) cycle_patterns)
  /\ (_extract_due_date text = []
      <-> Forall (fun p => re_search true p text = None) due_patterns).
Proof.
  split; [|split].
  - apply first_match_default_iff. intros p m Hp Hm.
    apply card_match_group in Hm as [Hlen _]; [|assumption].
    intros E. now rewrite E in Hlen.
  - apply extract_billing_cycle_empty_iff.
  - apply extract_due_date_empty_iff.
Qed.

(** ** Rows and tables *)

Lemma cell_str_trimmed c : trimmed (cell_str c).
Proof.
  destruct c as [[|x s]|]; try (split; exact I). apply strip_trimmed.
Qed.

Lemma cell_str_idem c : cell_str (Some (cell_str c)) = cell_str c.
Proof.
  pose proof (cell_str_trimmed c) as H.
  destruct (cell_str c) as [|y u] eqn:E; [reflexivity|].
  change (cell_str (Some (y :: u))) with (strip (y :: u)).
  now apply strip_fixed.
Qed.

(** X7. A row is read through its first three cells after trimming:
    padding around a cell, a missing cell given as [None] or as the empty
    string, and any cells beyond the third make no difference to what the
    row gives. *)
Theorem row_transaction_reads_trimmed_cells c0 c1 c2 rest :
  row_transaction [Some (cell_str c0); Some (cell_str c1); Some (cell_str c2)]
  = row_transaction (c0 :: c1 :: c2 :: rest).
Proof. unfold row_transaction. now rewrite !cell_str_idem. Qed.

(** X8. The date and the description of every transaction of the output
    are trimmed: neither begins nor ends with white space. *)
Theorem transactions_are_trimmed tables t :
  t ∈ scan_tables tables [] -> trimmed (Date t) /\ trimmed (Description t).
Proof.
  intros Ht. apply scan_tables_elem in Ht as (tbl & r & _ & _ & Hr).
  apply row_transaction_emits in Hr
    as ((c0 & c1 & c2 & rest & _ & -> & -> & _) & _).
  split; apply cell_str_trimmed.
Qed.

Lemma transactions_are_trimmed_witness :
  trimmed (py "Coffee Shop").
Proof.
  apply (transactions_are_trimmed
           [[ [Some (py "Date"); Some (py "Description"); Some (py "Amount")];
              [Some (py " 01/05/2024"); Some (py "  Coffee Shop ");
               Some (py "$4.50")] ]]
           (Transaction (py "01/05/2024") (py "Coffee Shop") (9 # 2)%Q)).
  vm_compute. left.
Defined.

(** X9. Scanning composes: the transactions of a list of tables, appended
    to what was collected before, are those of its first part followed by
    those of its second part. *)
Theorem scan_tables_app before after acc :
  scan_tables (before ++ after) acc
  = acc ++ scan_tables before [] ++ scan_tables after [].
Proof.
  rewrite !scan_tables_concat. simpl. now rewrite map_app, concat_app.
Qed.

Lemma scan_tables_middle before tbl after :
  scan_tables (before ++ tbl :: after) []
  = scan_tables before [] ++ table_transactions tbl ++ scan_tables after [].
Proof.
  rewrite !scan_tables_concat. simpl.
  now rewrite map_app, concat_app.
Qed.

(** X10. A table of fewer than two rows contributes nothing, whatever its
    row holds, and a row of fewer than three cells is skipped. *)
Theorem short_tables_and_rows_skipped before tbl after r :
  length tbl < 2 -> length r < 3 ->
  scan_tables (before ++ tbl :: after) [] = scan_tables (before ++ after) []
  /\ row_transaction r = None.
Proof.
  intros Ht Hr. split.
  - rewrite scan_tables_middle. unfold table_transactions.
    replace (length tbl <? 2) with true by (symmetry; apply Nat.ltb_lt; lia).
    rewrite !scan_tables_concat. simpl. now rewrite map_app, concat_app.
  - destruct r as [|c0 [|c1 [|c2 rest]]]; try reflexivity. simpl in Hr. lia.
Qed.

Lemma short_tables_and_rows_skipped_witness :
  scan_tables
    [[ [Some (py "01/05/2024"); Some (py "Coffee Shop"); Some (py "$4.50")] ]] []
  = []
  /\ row_transaction [Some (py "01/05/2024"); Some (py "$4.50")] = None.
Proof.
  apply (short_tables_and_rows_skipped []
           [[Some (py "01/05/2024"); Some (py "Coffee Shop"); Some (py "$4.50")]]
           [] [Some (py "01/05/2024"); Some (py "$4.50")]); simpl; lia.
Defined.

(** ** Pages *)

(** X11. The full text composes over pages: the text of one list of pages
    followed by another is the text of the first followed by the text of
    the second, appended to what was collected before; pages without text
    leave no trace, not even a newline. *)
Theorem text_loop_app ps1 ps2 text :
  text_loop (ps1 ++ ps2) text = text ++ text_loop ps1 [] ++ text_loop ps2 []
  /\ (kept_texts ps1 = [] -> text_loop (ps1 ++ ps2) text = text_loop ps2 text).
Proof.
  rewrite !text_loop_acc. unfold kept_texts. rewrite omap_app, map_app, concat_app.
  split; [reflexivity|]. fold (kept_texts ps1). now intros ->.
Qed.

Lemma text_loop_app_witness :
  text_loop ([Page None []; Page (Some []) []] ++ [Page (Some (py "Due")) []]) []
  = text_loop [Page (Some (py "Due")) []] [].
Proof.
  destruct (text_loop_app [Page None []; Page (Some []) []]
              [Page (Some (py "Due")) []] []) as [_ H].
  apply H. reflexivity.
Defined.

(** ** The whole parse, further *)

(** X1. The balance of a statement is never negative: no balance pattern
    admits a sign, so a credit balance printed with a minus sign reads as
    0.0 or as its unsigned digits. *)
Theorem parse_total_balance_never_negative file_path w :
  match (parse file_path w).1 with
  | Ok data => (0 <= total_balance data)%Q
  | Raise _ => True
  end.
Proof.
  rewrite parse_run. destruct (files w file_path) as [doc|]; [|exact I].
  destruct (pages doc !! 0); [|exact I].
  cbv zeta. simpl. apply extract_total_balance_nonneg.
Qed.

(** X4. The due date of a statement is the empty string or one or two
    digits, a slash, one or two digits, a slash and four digits: between
    8 and 10 characters, nothing else. *)
Theorem parse_due_date_empty_or_date_shape file_path w :
  match (parse file_path w).1 with
  | Ok data => due_date data = [] \/ date_shape (due_date data)
  | Raise _ => True
  end.
Proof.
  rewrite parse_run. destruct (files w file_path) as [doc|]; [|exact I].
  destruct (pages doc !! 0); [|exact I].
  cbv zeta. simpl. apply extract_due_date_shape.
Qed.

(** X5. The billing cycle of a statement is the empty string or a start,
    the separator " - " and an end, where start and end are trimmed and
    hold neither a hyphen nor a newline: the only hyphen of the result is
    the one of the separator, so the two spans can be told apart again. *)
Theorem parse_billing_cycle_empty_or_two_spans file_path w :
  match (parse file_path w).1 with
  | Ok data =>
      billing_cycle data = []
      \/ exists a b, billing_cycle data = a ++ py " - " ++ b
                     /\ cycle_span a /\ cycle_span b
  | Raise _ => True
  end.
Proof.
  rewrite parse_run. destruct (files w file_path) as [doc|]; [|exact I].
  destruct (pages doc !! 0); [|exact I].
  cbv zeta. simpl. apply extract_billing_cycle_shape.
Qed.

(** X12. [parse] returns a statement exactly when the document opens and
    has a first page; a path that does not open raises the error of
    [pdfplumber.open] and gives no partial result; the issuer of every
    statement is "Chase". *)
Theorem parse_succeeds_iff_first_page file_path w :
  ((exists data, (parse file_path w).1 = Ok data)
   <-> exists doc first_page,
         files w file_path = Some doc /\ pages doc !! 0 = Some first_page)
  /\ (files w file_path = None ->
      (parse file_path w).1 = Raise DocumentReadError)
  /\ (forall data, (parse file_path w).1 = Ok data -> issuer data = py "Chase").
Proof.
  rewrite parse_run.
  destruct (files w file_path) as [doc|] eqn:Hf;
    [destruct (pages doc !! 0) as [first_page|] eqn:Hp|]; simpl.
  - split; [|split].
    + split; intros _; [now exists doc, first_page|eexists; reflexivity].
    + intros [=].
    + now intros data [= <-].
  - split; [|split].
    + split; [intros [d [=]]|intros (d & p & [= <-] & Hp'); congruence].
    + intros [=].
    + intros d [=].
  - split; [|split].
    + split; [intros [d [=]]|intros (d & p & [=] & _)].
    + reflexivity.
    + intros d [=].
Qed.

Lemma parse_succeeds_iff_first_page_witness :
  (parse (py "notes.txt") sample_world).1 = Raise DocumentReadError.
Proof.
  destruct (parse_succeeds_iff_first_page (py "notes.txt") sample_world)
    as (_ & H & _).
  apply H. vm_compute. reflexivity.
Defined.

(** X13. A document none of whose pages has text gives the default of
    every text field, the empty string three times and 0.0, while its
    transactions are still read from the tables of the first page. *)
Theorem parse_without_text file_path w doc first_page :
  files w file_path = Some doc ->
  pages doc !! 0 = Some first_page ->
  kept_texts (pages doc) = [] ->
  (parse file_path w).1
  = Ok (mkStatementData (py "Chase") [] [] [] 0%Q
          (scan_tables (extract_tables first_page) [])).
Proof.
  intros Hdoc Hpage Hkept. rewrite parse_run, Hdoc, Hpage.
  cbv zeta. rewrite text_loop_acc, Hkept. reflexivity.
Qed.

Lemma parse_without_text_witness :
  (parse (py "scan.pdf") scanned_world).1
  = Ok (mkStatementData (py "Chase") [] [] [] 0%Q
          [Transaction (py "01/05/2024") (py "Coffee Shop") (9 # 2)%Q]).
Proof.
  refine (eq_trans (parse_without_text (py "scan.pdf") scanned_world scanned_doc
                      _ eq_refl eq_refl eq_refl) _).
  vm_compute. reflexivity.
Defined.

(** X14. Only the first page is scanned for tables: what the tables of the
    later pages hold never changes the result, while the text of every
    page does count. *)
Theorem later_page_tables_ignored file_path w w' first_page rest rest' :
  files w file_path = Some (Pdf (first_page :: rest)) ->
  files w' file_path = Some (Pdf (first_page :: rest')) ->
  map extract_text rest = map extract_text rest' ->
  (parse file_path w).1 = (parse file_path w').1.
Proof.
  intros H H' Ht.
  apply (parse_depends_on_extracted_data _ _ _ _ _ H H'); simpl; [|reflexivity].
  now f_equal.
Qed.

Lemma later_page_tables_ignored_witness :
  (parse (py "a.pdf") (two_page_world [])).1
  = (parse (py "a.pdf")
       (two_page_world
          [[ [Some (py "Date"); Some (py "Description"); Some (py "Amount")];
             [Some (py "02/01/2024"); Some (py "Late fee"); Some (py "$35.00")] ]])).1.
Proof.
  eapply later_page_tables_ignored; reflexivity.
Defined.

(** ** The display *)

Lemma or_dash_is_dash value :
  value <> py "-" -> (or_dash value = py "-" <-> value = []).
Proof.
  intros H. destruct value; simpl; [tauto|]. split; [tauto|discriminate].
Qed.

(** X15. In the caller's summary the placeholder "-" stands for a field
    that was not found and for nothing else: no card number, billing cycle
    or due date that [parse] returns is itself "-". *)
Theorem placeholder_means_not_found file_path w :
  match (parse file_path w).1 with
  | Ok data =>
      (or_dash (card_last_4 data) = py "-" <-> card_last_4 data = [])
      /\ (or_dash (billing_cycle data) = py "-" <-> billing_cycle data = [])
      /\ (or_dash (due_date data) = py "-" <-> due_date data = [])
  | Raise _ => True
  end.
Proof.
  rewrite parse_run. destruct (files w file_path) as [doc|]; [|exact I].
  destruct (pages doc !! 0); [|exact I]. cbv zeta. simpl.
  set (text := text_loop (pages doc) []).
  split; [|split]; apply or_dash_is_dash; intros E.
  - destruct (extract_card_last_4_shape text) as [H|[H _]];
      rewrite E in H; discriminate.
  - destruct (extract_billing_cycle_shape text) as [H|(a & b & H & _)];
      rewrite E in H; [discriminate|].
    destruct a as [|x [|y a]]; discriminate.
  - destruct (extract_due_date_shape text) as [H|(d & m & y & H & _ & Hd & Hm & Hy)];
      rewrite E in H; [discriminate|].
    apply (f_equal length) in H. rewrite !length_app in H. simpl in H. lia.
Qed.

(** X16. The balance of the summary is shown in green exactly when the
    balance read is zero, which is also what a statement without a
    readable balance gives; any other balance is positive and shown in
    red. *)
Theorem balance_color_green_iff_zero text :
  (balance_color (_extract_total_balance text) = py "#10b981"
   <-> (_extract_total_balance text == 0)%Q)
  /\ (balance_color (_extract_total_balance text) = py "#ef4444"
      <-> (0 < _extract_total_balance text)%Q).
Proof.
  pose proof (extract_total_balance_nonneg text) as Hnn.
  unfold balance_color.
  destruct (Qle_bool (_extract_total_balance text) 0) eqn:E; simpl.
  - apply Qle_bool_iff in E.
    assert (Hz : (_extract_total_balance text == 0)%Q) by now apply Qle_antisym.
    split; split.
    + intros _. exact Hz.
    + reflexivity.
    + intros H. vm_compute in H. discriminate.
    + intros H. rewrite Hz in H. now apply Qlt_irrefl in H.
  - assert (Hlt : (0 < _extract_total_balance text)%Q).
    { apply Qnot_le_lt. intros H. apply Qle_bool_iff in H. congruence. }
    split; split.
    + intros H. vm_compute in H. discriminate.
    + intros H. rewrite H in Hlt. now apply Qlt_irrefl in Hlt.
    + intros _. exact Hlt.
    + reflexivity.
Qed.

(** ** Letter case *)

Lemma lower_char_idem x : lower_char (lower_char x) = lower_char x.
Proof. destruct x as [[] [] [] [] [] [] [] []]; reflexivity. Qed.

Lemma is_digit_lower x : is_digit (lower_char x) = is_digit x.
Proof. destruct x as [[] [] [] [] [] [] [] []]; reflexivity. Qed.

Lemma is_space_lower x : is_space (lower_char x) = is_space x.
Proof. destruct x as [[] [] [] [] [] [] [] []]; reflexivity. Qed.

Lemma lower_char_digit x : is_digit x = true -> lower_char x = x.
Proof.
  destruct x as [[] [] [] [] [] [] [] []]; vm_compute; congruence.
Qed.

Lemma in_atom_lower a x : in_atom true a (lower_char x) = in_atom true a x.
Proof.
  destruct a; simpl;
    [now rewrite lower_char_idem|apply is_digit_lower|apply is_space_lower].
Qed.

Lemma in_class_lower c x : in_class true c (lower_char x) = in_class true c x.
Proof.
  assert (H : forall l, existsb (fun a => in_atom true a (lower_char x)) l
                        = existsb (fun a => in_atom true a x) l).
  { induction l as [|a l IH]; simpl; [reflexivity|].
    now rewrite in_atom_lower, IH. }
  destruct c; simpl; [apply in_atom_lower|apply H|now rewrite H].
Qed.

Section LowerSubject.
Context {A B : Type}.
Variable g : A -> B.

Lemma rep_match_lower gr c s : forall lo hi (k : pystr -> option A) k',
  (forall s', k' (lower s') = g <$> k s') ->
  rep_match true gr c lo hi (lower s) k' = g <$> rep_match true gr c lo hi s k.
Proof.
  induction s as [|x s IH]; intros lo hi k k' Hk.
  - simpl. destruct lo; [apply (Hk [])|reflexivity].
  - pose proof (Hk (x :: s)) as Hxs.
    change (lower (x :: s)) with (lower_char x :: lower s) in *.
    simpl. rewrite in_class_lower.
    destruct (room hi && in_class true c x).
    + rewrite (IH (pred lo) (pred <$> hi) k k' Hk).
      destruct lo as [|lo]; [|reflexivity].
      destruct gr.
      * destruct (rep_match true true c (pred 0) (pred <$> hi) s k);
          [reflexivity|exact Hxs].
      * rewrite Hxs. now destruct (k (x :: s)).
    + destruct lo; [exact Hxs|reflexivity].
Qed.

Lemma rmatch_lower r : forall s caps (k : pystr -> list pystr -> option A) k',
  (forall s' caps', k' (lower s') (map lower caps') = g <$> k s' caps') ->
  rmatch true r (lower s) (map lower caps) k' = g <$> rmatch true r s caps k.
Proof.
  induction r as [|gr c lo hi|r1 IH1 r2 IH2|r IH]; intros s caps k k' Hk; simpl.
  - apply Hk.
  - apply rep_match_lower. intros s'. apply Hk.
  - apply IH1. intros s' caps'. now apply IH2.
  - apply IH. intros s' caps'.
    assert (E : take (length (lower s) - length (lower s')) (lower s)
                = lower (take (length s - length s') s)).
    { unfold lower. rewrite !length_map. apply firstn_map. }
    rewrite E, <- Hk, map_app. reflexivity.
Qed.
End LowerSubject.

Lemma match_at_lower r s :
  match_at true r (lower s) = map lower <$> match_at true r s.
Proof.
  unfold match_at.
  apply (rmatch_lower (map lower) r s [] (fun _ caps => Some caps)).
  reflexivity.
Qed.

Lemma re_search_lower r s :
  re_search true r (lower s) = map lower <$> re_search true r s.
Proof.
  induction s as [|x s IH].
  - simpl. change [] with (lower []) at 1. rewrite match_at_lower.
    now destruct (match_at true r []).
  - change (lower (x :: s)) with (lower_char x :: lower s).
    simpl. change (lower_char x :: lower s) with (lower (x :: s)).
    rewrite match_at_lower. now destruct (match_at true r (x :: s)).
Qed.

Lemma group_lower m n : group (map lower m) n = lower (group m n).
Proof.
  unfold group. generalize (pred n) as i. induction m as [|y m IH]; intros [|i];
    simpl; try reflexivity. apply IH.
Qed.

Lemma lower_fixed (P : ascii -> Prop) s :
  (forall x, P x -> lower_char x = x) -> Forall P s -> lower s = s.
Proof.
  intros HP. induction 1 as [|x s Hx _ IH]; simpl; [reflexivity|].
  now rewrite (HP x Hx), IH.
Qed.

Lemma first_match_lower {A} patterns text (f : list pystr -> A) dflt :
  first_match patterns (lower text) f dflt
  = first_match patterns text (fun m => f (map lower m)) dflt.
Proof.
  induction patterns as [|p ps IH]; simpl; [reflexivity|].
  rewrite re_search_lower. now destruct (re_search true p text).
Qed.

Lemma first_match_ext {A} patterns text (f f' : list pystr -> A) dflt :
  (forall p m, p ∈ patterns -> re_search true p text = Some m -> f m = f' m) ->
  first_match patterns text f dflt = first_match patterns text f' dflt.
Proof.
  induction patterns as [|p ps IH]; simpl; intros H; [reflexivity|].
  destruct (re_search true p text) as [m|] eqn:E.
  - apply (H p); [left|assumption].
  - apply IH. intros q m Hq. apply H. now right.
Qed.

Lemma first_match_map {A B} (h : A -> B) patterns text f dflt :
  h (first_match patterns text f dflt)
  = first_match patterns text (fun m => h (f m)) (h dflt).
Proof.
  induction patterns as [|p ps IH]; simpl; [reflexivity|].
  now destruct (re_search true p text).
Qed.

Lemma lstrip_lower s : lstrip (lower s) = lower (lstrip s).
Proof.
  induction s as [|x s IH]; [reflexivity|].
  change (lower (x :: s)) with (lower_char x :: lower s).
  simpl. rewrite is_space_lower. now destruct (is_space x).
Qed.

Lemma reverse_lower s : reverse (lower s) = lower (reverse s).
Proof.
  induction s as [|x s IH]; [reflexivity|].
  change (lower (x :: s)) with (lower_char x :: lower s).
  rewrite !reverse_cons, IH. unfold lower. now rewrite map_app.
Qed.

Lemma strip_lower s : strip (lower s) = lower (strip s).
Proof.
  unfold strip, rstrip.
  now rewrite lstrip_lower, reverse_lower, lstrip_lower, reverse_lower.
Qed.

Lemma lower_app s t : lower (s ++ t) = lower s ++ lower t.
Proof. apply map_app. Qed.

Lemma unsigned_char_lower x : unsigned_char x -> lower_char x = x.
Proof.
  intros [H|[->| ->]]; [now apply lower_char_digit|reflexivity..].
Qed.

Lemma balance_match_group p text m :
  p ∈ balance_patterns -> re_search true p text = Some m ->
  Forall unsigned_char (group m 1).
Proof.
  intros Hp Hm. apply balance_pattern_shape in Hp as (pfx & ->).
  apply re_search_sound in Hm as (pre & w & post & _ & Hm).
  inversion Hm as [| |r1 r2 w1 w2 cs1 cs2 H1 H2|]; subst. clear Hm.
  apply matches_Lit in H1 as [-> _].
  now apply matches_money_tail_unsigned in H2 as (g & -> & _ & Hg).
Qed.

Lemma extract_card_last_4_lower text :
  _extract_card_last_4 (lower text) = _extract_card_last_4 text.
Proof.
  unfold _extract_card_last_4. rewrite first_match_lower.
  apply first_match_ext. intros p m Hp Hm. rewrite group_lower.
  apply card_match_group in Hm as [_ Hd]; [|assumption].
  exact (lower_fixed _ _ lower_char_digit Hd).
Qed.

Lemma extract_due_date_lower text :
  _extract_due_date (lower text) = _extract_due_date text.
Proof.
  unfold _extract_due_date. rewrite first_match_lower.
  apply first_match_ext. intros p m Hp Hm. rewrite group_lower.
  apply due_match_group in Hm as (d & mo & y & -> & Hd & _); [|assumption].
  apply Forall_app in Hd as [Hd Hmy]. apply Forall_app in Hmy as [Hm Hy].
  rewrite !lower_app.
  now rewrite (lower_fixed _ d lower_char_digit),
    (lower_fixed _ mo lower_char_digit), (lower_fixed _ y lower_char_digit).
Qed.

Lemma balance_loop_lower text ps :
  (forall p, p ∈ ps -> p ∈ balance_patterns) ->
  balance_loop ps (lower text) = balance_loop ps text.
Proof.
  induction ps as [|p ps IH]; intros Hps; simpl; [reflexivity|].
  rewrite re_search_lower, IH by (intros q Hq; apply Hps; now right).
  destruct (re_search true p text) as [m|] eqn:E; simpl; [|reflexivity].
  rewrite group_lower.
  apply balance_match_group in E; [|apply Hps; left].
  now rewrite (lower_fixed _ _ unsigned_char_lower E).
Qed.

Lemma extract_billing_cycle_lower text :
  _extract_billing_cycle (lower text) = lower (_extract_billing_cycle text).
Proof.
  unfold _extract_billing_cycle. rewrite first_match_lower.
  etransitivity; [|symmetry; apply (first_match_map lower)].
  apply first_match_ext. intros p m _ _.
  now rewrite !group_lower, !strip_lower, !lower_app.
Qed.

(** X17. The text fields do not depend on the letter case of the document:
    two texts that agree up to case give the same card number, due date
    and balance, and billing cycles that agree up to case. *)
Theorem text_fields_ignore_letter_case text text' :
  lower text = lower text' ->
  _extract_card_last_4 text = _extract_card_last_4 text'
  /\ _extract_due_date text = _extract_due_date text'
  /\ _extract_total_balance text = _extract_total_balance text'
  /\ lower (_extract_billing_cycle text) = lower (_extract_billing_cycle text').
Proof.
  intros H. repeat split.
  - now rewrite <- (extract_card_last_4_lower text), H, extract_card_last_4_lower.
  - now rewrite <- (extract_due_date_lower text), H, extract_due_date_lower.
  - unfold _extract_total_balance.
    rewrite <- (balance_loop_lower text), H, balance_loop_lower; auto.
  - now rewrite <- !extract_billing_cycle_lower, H.
Qed.

Lemma text_fields_ignore_letter_case_witness :
  _extract_card_last_4 (py "CARD ENDING IN 1234, PAYMENT DUE: 2/5/2024")
  = _extract_card_last_4 (py "Card ending in 1234, Payment Due: 2/5/2024").
Proof.
  apply (text_fields_ignore_letter_case
           (py "CARD ENDING IN 1234, PAYMENT DUE: 2/5/2024")
           (py "Card ending in 1234, Payment Due: 2/5/2024")).
  vm_compute. reflexivity.
Defined.

(** ** The minus sign and the header tests *)

Lemma span_digits_app s : s = (span_digits s).1 ++ (span_digits s).2.
Proof.
  induction s as [|c s IH]; [reflexivity|]. simpl.
  destruct (is_digit c); [|reflexivity].
  destruct (span_digits s) as [d r]. simpl in *. now f_equal.
Qed.

Lemma read_unsigned_chars neg body v :
  read_unsigned neg body = Some v ->
  Forall (fun x => is_digit x = true \/ x = "."%char) body.
Proof.
  unfold read_unsigned. rewrite (span_digits_app body) at 2.
  pose proof (span_digits_digits body) as Hip.
  destruct (span_digits body) as [ip rest]. simpl in *. intros H.
  apply Forall_app_2; [eapply Forall_impl; [exact Hip|]; now left|].
  destruct rest as [|c fp]; [constructor|].
  destruct (Ascii.eqb_spec c ".") as [->|Hc].
  - destruct (forallb is_digit fp) eqn:Hf; [|discriminate].
    constructor; [now right|]. apply Forall_forall. intros x Hx. left.
    rewrite forallb_forall in Hf. apply Hf. now apply list_elem_of_In.
  - destruct c as [[] [] [] [] [] [] [] []]; try discriminate.
    now destruct Hc.
Qed.

Lemma float_of_string_body s v :
  float_of_string s = Some v ->
  exists neg body, read_unsigned neg body = Some v
                   /\ (s = body \/ exists c, s = c :: body).
Proof.
  intros H. destruct s as [|c s]; [discriminate|].
  destruct (Ascii.eqb_spec c "-") as [->|Hm].
  - exists true, s. split; [exact H|right; eexists; reflexivity].
  - destruct (Ascii.eqb_spec c "+") as [->|Hp].
    + exists false, s. split; [exact H|right; eexists; reflexivity].
    + exists false, (c :: s). split; [|now left].
      rewrite <- H. unfold float_of_string.
      destruct c as [[] [] [] [] [] [] [] []]; try reflexivity; congruence.
Qed.

Lemma float_of_string_inner_minus x a b :
  float_of_string (x :: a ++ "-"%char :: b) = None.
Proof.
  destruct (float_of_string _) as [v|] eqn:E; [|reflexivity]. exfalso.
  apply float_of_string_body in E as (neg & body & Hr & Hs).
  apply read_unsigned_chars in Hr. rewrite Forall_forall in Hr.
  assert (Hin : "-"%char ∈ body).
  { destruct Hs as [<-|(c & [= _ <-])].
    - right. apply elem_of_app. right. left.
    - apply elem_of_app. right. left. }
  destruct (Hr _ Hin) as [H|H]; discriminate.
Qed.

Lemma normalized_around_minus a b :
  remove_char "," (List.filter keeps_amount_char (a ++ "-"%char :: b))
  = remove_char "," (List.filter keeps_amount_char a)
    ++ "-"%char :: remove_char "," (List.filter keeps_amount_char b).
Proof. unfold remove_char. now rewrite !List.filter_app. Qed.

Lemma normalized_empty a :
  remove_char "," (List.filter keeps_amount_char a) = [] ->
  Forall (fun x => is_digit x = false /\ x <> "."%char /\ x <> "-"%char) a.
Proof.
  induction a as [|x a IH]; [constructor|]. unfold remove_char. simpl.
  destruct (keeps_amount_char x) eqn:Hk.
  - simpl. destruct (char_eqb x ",") eqn:Hc; [|discriminate]. simpl.
    intros H. apply Ascii.eqb_eq in Hc. subst x. constructor; [|now apply IH].
    repeat split; discriminate.
  - intros H. constructor; [|now apply IH].
    unfold keeps_amount_char in Hk.
    destruct (is_digit x); [discriminate|]. split; [reflexivity|].
    split; intros ->; discriminate.
Qed.

(** X18. A minus sign of the amount cell is honoured only in front: when a
    digit, a point or another minus sign stands before it, the amount does
    not parse and the row is discarded. *)
Theorem minus_sign_only_in_front a b v :
  parse_amount (a ++ "-"%char :: b) = Some v ->
  Forall (fun x => is_digit x = false /\ x <> "."%char /\ x <> "-"%char) a.
Proof.
  unfold parse_amount. rewrite re_sub_amount, normalized_around_minus.
  destruct (remove_char "," (List.filter keeps_amount_char a)) as [|x a'] eqn:E.
  - intros _. now apply normalized_empty.
  - rewrite <- app_comm_cons, float_of_string_inner_minus. discriminate.
Qed.

Lemma minus_sign_only_in_front_witness :
  Forall (fun x => is_digit x = false /\ x <> "."%char /\ x <> "-"%char)
    (py "$ ").
Proof.
  apply (minus_sign_only_in_front (py "$ ") (py "50.00") (-50)%Q).
  vm_compute. reflexivity.
Defined.

Lemma keeps_amount_char_lower x :
  keeps_amount_char (lower_char x) = keeps_amount_char x.
Proof. destruct x as [[] [] [] [] [] [] [] []]; reflexivity. Qed.

Lemma filter_keeps_lower s :
  List.filter keeps_amount_char (lower s)
  = lower (List.filter keeps_amount_char s).
Proof.
  induction s as [|x s IH]; [reflexivity|].
  change (lower (x :: s)) with (lower_char x :: lower s). simpl.
  rewrite keeps_amount_char_lower, IH. now destruct (keeps_amount_char x).
Qed.

Lemma amount_header_no_number amount :
  str_in (lower amount) amount_headers = true -> parse_amount amount = None.
Proof.
  unfold str_in. intros H. apply bool_decide_eq_true in H.
  assert (E : List.filter keeps_amount_char amount = []).
  { pose proof (filter_keeps_lower amount) as Hf.
    unfold amount_headers in H. rewrite !elem_of_cons, elem_of_nil in H.
    destruct H as [H|[H|[]]]; rewrite H in Hf;
      [change (List.filter keeps_amount_char (py "amount")) with (@nil ascii) in Hf
      |change (List.filter keeps_amount_char (py "")) with (@nil ascii) in Hf];
      destruct (List.filter keeps_amount_char amount);
      reflexivity || discriminate. }
  unfold parse_amount. now rewrite re_sub_amount, E.
Qed.

(** X19. The amount header test and the blank re-check of the loop body
    never decide anything: a row they would skip is skipped by the date
    or description test or because its amount does not parse, so the body
    is the date and description tests followed by the amount. *)
Theorem amount_header_test_redundant r :
  row_transaction r = row_transaction_core r.
Proof.
  destruct r as [|c0 [|c1 [|c2 rest]]]; try reflexivity.
  unfold row_transaction_core.
  destruct (str_in (lower (cell_str c0)) date_headers
            || str_in (lower (cell_str c1)) description_headers) eqn:H.
  - unfold row_transaction. now rewrite H.
  - destruct (str_in (lower (cell_str c2)) amount_headers) eqn:Ha.
    + rewrite (amount_header_no_number _ Ha).
      unfold row_transaction. now rewrite H, Ha.
    + apply row_transaction_accepted. now rewrite H, Ha.
Qed.

(** ** The generic patterns *)

Section MatcherComplete.
Context {A : Type}.
Variable icase : bool.

Lemma rep_match_cons g c lo hi x s (k : pystr -> option A) :
  rep_match icase g c lo hi (x :: s) k =
  if room hi && in_class icase c x then
    match lo with
    | S _ => rep_match icase g c (pred lo) (pred <$> hi) s k
    | 0 =>
        if g
        then match rep_match icase g c (pred lo) (pred <$> hi) s k with
             | Some r => Some r
             | None => k (x :: s)
             end
        else match k (x :: s) with
             | Some r => Some r
             | None => rep_match icase g c (pred lo) (pred <$> hi) s k
             end
    end
  else match lo with 0 => k (x :: s) | S _ => None end.
Proof. reflexivity. Qed.

Lemma rep_match_complete g c w : forall lo hi s (k : pystr -> option A),
  Forall (fun x => in_class icase c x = true) w ->
  lo <= length w ->
  (forall h, hi = Some h -> length w <= h) ->
  is_Some (k s) ->
  is_Some (rep_match icase g c lo hi (w ++ s) k).
Proof.
  induction w as [|x w IH]; intros lo hi s k Hw Hlo Hhi Hk.
  - simpl in Hlo. assert (lo = 0) as -> by lia. rewrite app_nil_l.
    destruct s as [|y s]; [exact Hk|]. rewrite rep_match_cons.
    destruct (room hi && in_class icase c y); [|exact Hk].
    destruct g.
    + destruct (rep_match icase true c (pred 0) (pred <$> hi) s k);
        [eauto|exact Hk].
    + destruct (k (y :: s)); [eauto|now destruct Hk].
  - inversion Hw as [|? ? Hx Hw']; subst.
    rewrite <- app_comm_cons, rep_match_cons.
    assert (Hroom : room hi = true).
    { destruct hi as [[|h]|]; try reflexivity.
      specialize (Hhi 0 eq_refl). simpl in Hhi. lia. }
    rewrite Hroom, Hx. cbn [andb].
    assert (Hmore : is_Some (rep_match icase g c (pred lo) (pred <$> hi) (w ++ s) k)).
    { apply IH; try assumption; [simpl in Hlo; lia|].
      intros h Hh. destruct hi as [[|h']|]; try discriminate.
      simpl in Hh. injection Hh as <-. specialize (Hhi (S h') eq_refl).
      simpl in Hhi. lia. }
    destruct lo as [|lo]; [|exact Hmore].
    destruct g.
    + destruct Hmore as [res Hmore]. rewrite Hmore. eauto.
    + destruct (k (x :: w ++ s)); [eauto|exact Hmore].
Qed.

Lemma rmatch_complete r w cs :
  matches icase r w cs ->
  forall s caps (k : pystr -> list pystr -> option A),
    is_Some (k s (caps ++ cs)) ->
    is_Some (rmatch icase r (w ++ s) caps k).
Proof.
  induction 1 as [|g c lo hi w Hw Hlo Hhi
                  |r1 r2 w1 w2 cs1 cs2 _ IH1 _ IH2|r w cs _ IH];
    intros s caps k Hk; simpl.
  - now rewrite app_nil_r in Hk.
  - rewrite app_nil_r in Hk. now apply rep_match_complete.
  - rewrite <- app_assoc. apply IH1. apply IH2. now rewrite <- app_assoc.
  - apply IH. rewrite length_app, Nat.add_sub, take_app_length.
    now rewrite <- app_assoc.
Qed.
End MatcherComplete.

Lemma re_search_complete icase r pre rest :
  is_Some (match_at icase r rest) -> is_Some (re_search icase r (pre ++ rest)).
Proof.
  intros H. induction pre as [|x pre IH]; simpl.
  - destruct H as [m H]. now rewrite (re_search_here _ _ _ _ H).
  - now destruct (match_at icase r (x :: pre ++ rest)).
Qed.

(** A match of a pattern with a longer label holds a match of the pattern
    with the label's end. *)
Lemma label_suffix_matches pfx l tail text :
  is_Some (re_search true (Cat (Lit (pfx ++ l)) tail) text) ->
  is_Some (re_search true (Cat (Lit l) tail) text).
Proof.
  intros [m Hm].
  apply re_search_sound in Hm as (pre & w & post & -> & Hm).
  inversion Hm as [| |r1 r2 w1 w2 cs1 cs2 H1 H2|]; subst. clear Hm.
  apply matches_Lit in H1 as [-> H1].
  apply Forall2_app_inv_r in H1 as (wa & wb & _ & Hb & ->).
  replace (pre ++ ((wa ++ wb) ++ w2) ++ post)
    with ((pre ++ wa) ++ wb ++ w2 ++ post) by now rewrite <- !app_assoc.
  apply re_search_complete. unfold match_at.
  rewrite rmatch_Cat, rmatch_Lit by assumption.
  now apply (rmatch_complete true tail w2 cs2 H2).
Qed.

Lemma none_not_some {A} (o : option A) : o = None <-> ~ is_Some o.
Proof.
  destruct o; split; try easy.
  intros H. exfalso. apply H. eauto.
Qed.

Lemma Forall3 {A} (P : A -> Prop) x y z :
  Forall P [x; y; z] <-> P x /\ P y /\ P z.
Proof.
  split.
  - intros H. inversion H as [|? ? Hx H']; subst.
    inversion H' as [|? ? Hy H'']; subst. inversion H''; subst. auto.
  - intros (Hx & Hy & Hz). repeat constructor; assumption.
Qed.

Lemma suffix_none pfx l tail text :
  re_search true (Cat (Lit l) tail) text = None ->
  re_search true (Cat (Lit (pfx ++ l)) tail) text = None.
Proof.
  intros H. apply none_not_some. intros Hs.
  apply label_suffix_matches in Hs. now apply none_not_some in H.
Qed.

(** X20. The generic pattern of a field decides whether the field is
    found wherever a specific label ends in the generic one: a text
    matched by "statement period" or "billing period" (by "payment due",
    by "total balance" or "current balance") is matched by the generic
    "period" ("due", "balance") pattern too, so those specific patterns
    only take precedence.  The billing cycle is empty exactly when the
    generic pattern has no match, the due date exactly when neither "due
    date" nor the generic pattern has one, and the balance is 0.0 when the
    generic pattern has none. *)
Theorem generic_pattern_decides text :
  (_extract_billing_cycle text = []
   <-> re_search true (Cat (Lit (py "period")) period_tail) text = None)
  /\ (_extract_due_date text = []
      <-> re_search true (Cat (Lit (py "due date")) date_tail) text = None
          /\ re_search true (Cat (Lit (py "due")) date_tail) text = None)
  /\ (re_search true balance_plain text = None ->
      _extract_total_balance text = 0%Q).
Proof.
  split; [|split].
  - rewrite extract_billing_cycle_empty_iff. unfold cycle_patterns.
    rewrite Forall3. split; [tauto|]. intros H. repeat split; [| |assumption].
    + now apply (suffix_none (py "statement ") (py "period")).
    + now apply (suffix_none (py "billing ") (py "period")).
  - rewrite extract_due_date_empty_iff. unfold due_patterns.
    rewrite Forall3. split; [tauto|]. intros [H1 H3].
    repeat split; [assumption| |assumption].
    now apply (suffix_none (py "payment ") (py "due")).
  - intros H. apply balance_loop_none. unfold balance_patterns.
    assert (Hn : forall p, re_search true p text = None ->
                           pattern_balance p text = None).
    { intros p Hp. unfold pattern_balance. now rewrite Hp. }
    apply Forall3. repeat split; apply Hn; [| |assumption].
    + now apply (suffix_none (py "total ") (py "balance")).
    + now apply (suffix_none (py "current ") (py "balance")).
Qed.

Lemma generic_pattern_decides_witness :
  _extract_total_balance (py "Balance due on receipt") = 0%Q.
Proof.
  destruct (generic_pattern_decides (py "Balance due on receipt"))
    as (_ & _ & H).
  apply H. vm_compute. reflexivity.
Defined.

(** ** The transactions list, exactly *)


















